(** * ReserveMap: the filter, city index, city search, marker update and
      data conversion of the map page, embedded from the JavaScript sources

    Sources embedded here:
    - [scripts/convert-data.js]   (CSV rows to restaurant records)
    - [src/pages/Home.jsx]        (filter state, city index, city search, count)
    - [src/components/Map.jsx]    (visible set, markers, cluster group update)

    JavaScript values are modelled as follows.  A string is a [string], its
    characters being the code units below 256; a string-valued property that
    may be [undefined] or [null] is an [option string] ([None] for either);
    a number is a [JsNumber]; an array is a [list]; an object used as a
    struct is a record; the object used as a dictionary ([cityMap]) is an
    association list in property creation order. *)

From Stdlib Require Import List String Ascii Bool Arith ZArith NArith QArith.
From Stdlib Require Import Lia Permutation Sorted.
From Equations Require Import Equations.
Import ListNotations.

Close Scope Q_scope.
Open Scope string_scope.
Open Scope list_scope.

(** ** JavaScript primitives *)

(** A JavaScript number: NaN, an infinity, or a finite value given by its
    exact rational value (both zeros are [Finite 0]). *)
Inductive JsNumber : Type :=
| NaN
| Infinity (negative : bool)
| Finite (q : Q).

(** [isNaN(x)] *)
Definition isNaN (x : JsNumber) : bool :=
  match x with NaN => true | _ => false end.

(** Truthiness of a number: NaN and zero are falsy. *)
Definition truthyNumber (x : JsNumber) : bool :=
  match x with
  | NaN => false
  | Infinity _ => true
  | Finite q => negb (Qeq_bool q 0)
  end.

(** Truthiness of a string-or-absent property: [undefined], [null] and the
    empty string are falsy. *)
Definition truthy (v : option string) : bool :=
  match v with
  | Some s => negb (s =? "")
  | None => false
  end.

(** [a || b] on string-or-absent values. *)
Definition orElse (a b : option string) : option string :=
  if truthy a then a else b.

(** [String.prototype.startsWith] *)
Definition startsWith (s q : string) : bool := String.prefix q s.

(** [String.prototype.includes]: [q] occurs in [s] at some position. *)
Fixpoint includes (s q : string) : bool :=
  String.prefix q s ||
  match s with
  | EmptyString => false
  | String _ s' => includes s' q
  end.

(** White space and line terminators removed by [String.prototype.trim],
    among the code units below 256: TAB, LF, VT, FF, CR, SP, NBSP. *)
Definition isWhiteSpace (c : ascii) : bool :=
  let n := nat_of_ascii c in
  ((9 <=? n) && (n <=? 13) || (n =? 32) || (n =? 160))%nat.

Fixpoint trimStart (s : string) : string :=
  match s with
  | EmptyString => EmptyString
  | String c s' => if isWhiteSpace c then trimStart s' else s
  end.

(** Removes the trailing white space: a character is kept when it is not
    white space or when something is kept after it. *)
Fixpoint trimEnd (s : string) : string :=
  match s with
  | EmptyString => EmptyString
  | String c s' =>
      match trimEnd s' with
      | EmptyString => if isWhiteSpace c then EmptyString else String c EmptyString
      | t => String c t
      end
  end.

Definition trim (s : string) : string := trimEnd (trimStart s).

(** [String.prototype.toLowerCase] restricted to the letters A-Z; the search
    functions below take the lowering function as an argument, and this one
    is the instance used on ASCII city names. *)
Definition lowerAscii (c : ascii) : ascii :=
  let n := nat_of_ascii c in
  if ((65 <=? n) && (n <=? 90))%nat then ascii_of_nat (n + 32) else c.

Fixpoint toLowerCaseAscii (s : string) : string :=
  match s with
  | EmptyString => EmptyString
  | String c s' => String (lowerAscii c) (toLowerCaseAscii s')
  end.

(** Names that every object inherits from [Object.prototype]; reading one of
    them on an object that has no own property of that name yields the
    inherited member, which is truthy. *)
Definition objectPrototypeKeys : list string :=
  [ "constructor"; "__proto__"; "hasOwnProperty"; "isPrototypeOf";
    "propertyIsEnumerable"; "toLocaleString"; "toString"; "valueOf";
    "__defineGetter__"; "__defineSetter__"; "__lookupGetter__";
    "__lookupSetter__" ].

Definition inherited (key : string) : bool :=
  existsb (String.eqb key) objectPrototypeKeys.

(** [Array.prototype.slice(0, n)] *)
Definition slice0 {A : Type} (n : nat) (l : list A) : list A := firstn n l.

(** [Array.prototype.sort(cmp)].  The comparator returns a number whose sign
    decides the order ([cmp a b < 0]: [a] first).  The sort is stable: an
    element is moved in front of the first element it is not greater than,
    and elements that compare equal keep their relative order. *)
Fixpoint sortInsert {A : Type} (cmp : A -> A -> Z) (x : A) (l : list A) : list A :=
  match l with
  | [] => [x]
  | y :: ys => if (cmp x y <=? 0)%Z then x :: y :: ys else y :: sortInsert cmp x ys
  end.

Fixpoint sort {A : Type} (cmp : A -> A -> Z) (l : list A) : list A :=
  match l with
  | [] => []
  | x :: xs => sortInsert cmp x (sort cmp xs)
  end.

(** [equivalent cmp x y]: the comparator puts neither element before the
    other. *)
Definition equivalent {A : Type} (cmp : A -> A -> Z) (x y : A) : bool :=
  (cmp x y <=? 0)%Z && (cmp y x <=? 0)%Z.

(** ** Data model *)

Module Restaurant.

(** One record of [restaurants.json], as written by [convert-data.js]. *)
Record t : Type := mk {
  name : option string;
  address : option string;
  city : option string;
  cuisine : option string;
  neighborhood : option string;
  state : option string;
  website : option string;
  lat : JsNumber;
  lon : JsNumber;
  program : string
}.

End Restaurant.

Module Filters.

(** The filter state of [Home]: [useState({ amex: true, chase: true })]. *)
Record t : Type := mk {
  amex : bool;
  chase : bool
}.

Definition initial : t := {| amex := true; chase := true |}.

(** The flag that the filter state holds for a program, if it holds one. *)
Definition entry (f : t) (p : string) : option bool :=
  if p =? "amex" then Some (amex f)
  else if p =? "chase" then Some (chase f)
  else None.

(** A program is toggled on unless its flag is [false]; a program without a
    flag counts as visible. *)
Definition toggledOn (f : t) (p : string) : bool :=
  match entry f p with
  | Some b => b
  | None => true
  end.

End Filters.

Module City.

(** One entry of the city index of [Home]. *)
Record t : Type := mk {
  name : string;
  count : nat;
  lat : JsNumber;
  lon : JsNumber;
  state : option string
}.

End City.

(** ** [scripts/convert-data.js]: rows of the enriched CSV files to records *)

Module Convert.

(** A parsed CSV row: the object built by [parseCSV], read by header name
    ([row.name], [row.lat], ...); a header the file does not have reads as
    [undefined]. *)
Definition Row : Type := string -> option string.

Section WithParseFloat.

(** The built-in [parseFloat] on strings. *)
Variable parseFloat : string -> JsNumber.

(** [parseFloat(v)] for a property that may be [undefined]. *)
Definition parseFloatOf (v : option string) : JsNumber :=
  match v with
  | Some s => parseFloat s
  | None => NaN
  end.

(** The record built from a row of the Chase file (lines 55-65). *)
Definition chaseRecord (row : Row) : Restaurant.t :=
  {| Restaurant.name := orElse (row "name") (row "google_name");
     Restaurant.address := row "address";
     Restaurant.city := row "city";
     Restaurant.cuisine := orElse (row "cuisine") None;
     Restaurant.neighborhood := orElse (row "neighborhood") None;
     Restaurant.state := None;
     Restaurant.website := row "website";
     Restaurant.lat := parseFloatOf (row "lat");
     Restaurant.lon := parseFloatOf (row "lon");
     Restaurant.program := "chase" |}.

(** [r => r.lat && r.lon && !isNaN(r.lat) && !isNaN(r.lon) && r.name] *)
Definition keepChase (r : Restaurant.t) : bool :=
  truthyNumber (Restaurant.lat r) && truthyNumber (Restaurant.lon r)
  && negb (isNaN (Restaurant.lat r)) && negb (isNaN (Restaurant.lon r))
  && truthy (Restaurant.name r).

Definition chaseData (rows : list Row) : list Restaurant.t :=
  filter keepChase (map chaseRecord rows).

(** The record built from a row of the Amex file (lines 72-81). *)
Definition gdaRecord (row : Row) : Restaurant.t :=
  {| Restaurant.name := orElse (row "name") (row "google_name");
     Restaurant.address := row "address";
     Restaurant.city := row "city";
     Restaurant.cuisine := None;
     Restaurant.neighborhood := None;
     Restaurant.state := orElse (row "state") None;
     Restaurant.website := row "website";
     Restaurant.lat := parseFloatOf (row "lat");
     Restaurant.lon := parseFloatOf (row "lon");
     Restaurant.program := "amex" |}.

(** [r => r.lat && r.lon && !isNaN(r.lat) && !isNaN(r.lon)] *)
Definition keepGda (r : Restaurant.t) : bool :=
  truthyNumber (Restaurant.lat r) && truthyNumber (Restaurant.lon r)
  && negb (isNaN (Restaurant.lat r)) && negb (isNaN (Restaurant.lon r)).

Definition gdaData (rows : list Row) : list Restaurant.t :=
  filter keepGda (map gdaRecord rows).

(** [allData = [...chaseData, ...gdaData]], the content of
    [restaurants.json]. *)
Definition allData (chaseRows gdaRows : list Row) : list Restaurant.t :=
  chaseData chaseRows ++ gdaData gdaRows.

End WithParseFloat.

(** A number as [JSON.stringify] writes it: a finite number is written as a
    numeral, NaN and the infinities as [null]. *)
Inductive JsonNumber : Type :=
| JsonNum (q : Q)
| JsonNull.

Definition stringifyNumber (x : JsNumber) : JsonNumber :=
  match x with
  | Finite q => JsonNum q
  | NaN | Infinity _ => JsonNull
  end.

(** A record of [restaurants.json]: the properties of the record as they
    are, the two coordinates as written. *)
Record JsonRecord : Type := mkJsonRecord {
  jsonProperties : Restaurant.t;
  jsonLat : JsonNumber;
  jsonLon : JsonNumber
}.

Definition stringifyRecord (r : Restaurant.t) : JsonRecord :=
  {| jsonProperties := r;
     jsonLat := stringifyNumber (Restaurant.lat r);
     jsonLon := stringifyNumber (Restaurant.lon r) |}.

(** [JSON.stringify(allData, null, 2)] (lines 97-100): the records of
    [restaurants.json]. *)
Definition restaurantsJson (parseFloat : string -> JsNumber)
    (chaseRows gdaRows : list Row) : list JsonRecord :=
  map stringifyRecord (allData parseFloat chaseRows gdaRows).

End Convert.

(** ** [src/pages/Home.jsx] *)

Module Home.

(** *** Program toggles (lines 163-189) *)

(** [f => ({ ...f, amex: !f.amex })] *)
Definition toggleAmex (f : Filters.t) : Filters.t :=
  {| Filters.amex := negb (Filters.amex f); Filters.chase := Filters.chase f |}.

(** [f => ({ ...f, chase: !f.chase })] *)
Definition toggleChase (f : Filters.t) : Filters.t :=
  {| Filters.amex := Filters.amex f; Filters.chase := negb (Filters.chase f) |}.

(** The two program buttons of the filter bar. *)
Inductive ProgramButton : Type := AmexButton | ChaseButton.

(** [onClick={() => setFilters(updater)}]: the next filter state. *)
Definition onClick (b : ProgramButton) (f : Filters.t) : Filters.t :=
  match b with
  | AmexButton => toggleAmex f
  | ChaseButton => toggleChase f
  end.

(** *** Restaurant count of the filter bar (lines 193-198) *)

(** [(r.program === 'amex' && filters.amex) ||
     (r.program === 'chase' && filters.chase)] *)
Definition isCounted (filters : Filters.t) (r : Restaurant.t) : bool :=
  ((Restaurant.program r =? "amex") && Filters.amex filters)
  || ((Restaurant.program r =? "chase") && Filters.chase filters).

Definition restaurantCount (restaurants : list Restaurant.t) (filters : Filters.t) : nat :=
  List.length (filter (isCounted filters) restaurants).

(** *** City index (lines 43-55) *)

(** [cityMap]: own properties in creation order. *)
Definition CityMap : Type := list (string * City.t).

(** Own property lookup. *)
Fixpoint getOwn (m : CityMap) (key : string) : option City.t :=
  match m with
  | [] => None
  | (k, v) :: m' => if k =? key then Some v else getOwn m' key
  end.

(** [cityMap[city].count++] on an own property. *)
Fixpoint increment (m : CityMap) (key : string) : CityMap :=
  match m with
  | [] => []
  | (k, v) :: m' =>
      if k =? key
      then (k, {| City.name := City.name v; City.count := S (City.count v);
                  City.lat := City.lat v; City.lon := City.lon v;
                  City.state := City.state v |}) :: m'
      else (k, v) :: increment m' key
  end.

(** The body of [restaurants.forEach(r => ...)].  When [cityMap[city]]
    resolves to an inherited member, it is truthy, no entry is created and
    the increment lands on that member: [cityMap] keeps its own properties. *)
Definition visit (m : CityMap) (r : Restaurant.t) : CityMap :=
  match Restaurant.city r with
  | None => m
  | Some city =>
      if truthy (Some city) then
        match getOwn m city with
        | Some _ => increment m city
        | None =>
            if inherited city then m
            else increment
                   (m ++ [(city, {| City.name := city; City.count := 0;
                                    City.lat := Restaurant.lat r;
                                    City.lon := Restaurant.lon r;
                                    City.state := Restaurant.state r |})])
                   city
        end
      else m
  end.

Definition cityMap (restaurants : list Restaurant.t) : CityMap :=
  fold_left visit restaurants [].

(** An array index: a canonical decimal numeral below [2^32 - 1]. *)
Definition isDigit (c : ascii) : bool :=
  let n := nat_of_ascii c in ((48 <=? n) && (n <=? 57))%nat.

Fixpoint digitsValue (acc : N) (s : string) : option N :=
  match s with
  | EmptyString => Some acc
  | String c s' =>
      if isDigit c
      then digitsValue (acc * 10 + (N_of_ascii c - 48))%N s'
      else None
  end.

Definition arrayIndex (key : string) : option N :=
  match key with
  | EmptyString => None
  | String c rest =>
      if (c =? "0")%char && negb (rest =? "") then None
      else match digitsValue 0%N key with
           | Some n => if (n <? 4294967295)%N then Some n else None
           | None => None
           end
  end.

(** Property order of an ordinary object: array indices in ascending numeric
    order, then the other names in creation order. *)
Definition indexEntries (m : CityMap) : list (N * City.t) :=
  flat_map (fun kv => match arrayIndex (fst kv) with
                      | Some n => [(n, snd kv)]
                      | None => []
                      end) m.

Definition namedEntries (m : CityMap) : list City.t :=
  flat_map (fun kv => match arrayIndex (fst kv) with
                      | Some _ => []
                      | None => [snd kv]
                      end) m.

(** [Object.values(cityMap)] *)
Definition objectValues (m : CityMap) : list City.t :=
  map snd (sort (fun a b => (Z.of_N (fst a) - Z.of_N (fst b))%Z) (indexEntries m))
  ++ namedEntries m.

(** [(a, b) => b.count - a.count] *)
Definition byCountDesc (a b : City.t) : Z :=
  (Z.of_nat (City.count b) - Z.of_nat (City.count a))%Z.

(** [cities = Object.values(cityMap).sort((a, b) => b.count - a.count)] *)
Definition cities (restaurants : list Restaurant.t) : list City.t :=
  sort byCountDesc (objectValues (cityMap restaurants)).

(** *** City search (lines 58-77) *)

Section WithToLowerCase.

(** [String.prototype.toLowerCase] *)
Variable toLowerCase : string -> string.

(** The comparator of [matches.sort]: exact match first, then starts-with,
    then by count. *)
Definition compareMatches (query : string) (a b : City.t) : Z :=
  let aName := toLowerCase (City.name a) in
  let bName := toLowerCase (City.name b) in
  let aExact := aName =? query in
  let bExact := bName =? query in
  let aStarts := startsWith aName query in
  let bStarts := startsWith bName query in
  if aExact && negb bExact then (-1)%Z
  else if bExact && negb aExact then 1%Z
  else if aStarts && negb bStarts then (-1)%Z
  else if bStarts && negb aStarts then 1%Z
  else (Z.of_nat (City.count b) - Z.of_nat (City.count a))%Z.

(** [cities.filter(c => c.name.toLowerCase().includes(query))] *)
Definition matches (cities : list City.t) (query : string) : list City.t :=
  filter (fun c => includes (toLowerCase (City.name c)) query) cities.

Definition filteredCities (cities : list City.t) (searchQuery : string) : list City.t :=
  if negb (truthy (Some (trim searchQuery))) then slice0 15 cities
  else
    let query := toLowerCase searchQuery in
    slice0 20 (sort (compareMatches query) (matches cities query)).

End WithToLowerCase.

(** [handleCitySelect]: the fly-to target of a selected city. *)
Record FlyTo : Type := mkFlyTo {
  flyLat : JsNumber;
  flyLon : JsNumber;
  flyZoom : nat
}.

Definition handleCitySelect (city : City.t) : FlyTo :=
  {| flyLat := City.lat city; flyLon := City.lon city; flyZoom := 12 |}.

End Home.

(** ** [src/components/Map.jsx] *)

Module MapView.

(** [createIcon(color)]: the pin icon, identified by its colour. *)
Record DivIcon : Type := createIcon { color : string }.

(** What the lookup [ICONS[program]] can yield: one of the two icons, or a
    member inherited from [Object.prototype]. *)
Inductive IconValue : Type :=
| Icon (i : DivIcon)
| Inherited (key : string).

(** [ICONS = { amex: createIcon('#f59e0b'), chase: createIcon('#3b82f6') }],
    read at a program name. *)
Definition ICONS (p : string) : option IconValue :=
  if p =? "amex" then Some (Icon (createIcon "#f59e0b"))
  else if p =? "chase" then Some (Icon (createIcon "#3b82f6"))
  else if inherited p then Some (Inherited p)
  else None.

(** [ICONS[restaurant.program] || ICONS.amex] *)
Definition iconFor (p : string) : IconValue :=
  match ICONS p with
  | Some v => v
  | None => Icon (createIcon "#f59e0b")
  end.

(** The variable parts of the popup built by [createPopupContent]. *)
Record Popup : Type := mkPopup {
  title : option string;
  addressLine : option string;
  programLabel : string;
  bookingUrl : string;
  bookingPlatform : string
}.

Definition createPopupContent (r : Restaurant.t) : Popup :=
  let isAmex := Restaurant.program r =? "amex" in
  {| title := Restaurant.name r;
     addressLine :=
       if truthy (Restaurant.address r) then Restaurant.address r
       else Some (String.append
                    (match Restaurant.city r with Some c => c | None => "undefined" end)
                    (if truthy (Restaurant.state r)
                     then String.append ", "
                            (match Restaurant.state r with Some s => s | None => "" end)
                     else ""));
     programLabel := if isAmex then "Amex Global Dining" else "Chase Sapphire Reserve";
     bookingUrl := if truthy (Restaurant.website r)
                   then match Restaurant.website r with Some u => u | None => "" end
                   else "";
     bookingPlatform := if isAmex then "Resy" else "OpenTable" |}.

(** [L.marker([lat, lon], { icon }).bindPopup(...)] *)
Record Marker : Type := mkMarker {
  latlng : JsNumber * JsNumber;
  icon : IconValue;
  popup : Popup
}.

Definition createMarker (r : Restaurant.t) : Marker :=
  {| latlng := (Restaurant.lat r, Restaurant.lon r);
     icon := iconFor (Restaurant.program r);
     popup := createPopupContent r |}.

(** The filter of the marker update (lines 139-143). *)
Definition isVisible (filters : Filters.t) (r : Restaurant.t) : bool :=
  if (Restaurant.program r =? "amex") && negb (Filters.amex filters) then false
  else if (Restaurant.program r =? "chase") && negb (Filters.chase filters) then false
  else true.

Definition filtered (restaurants : list Restaurant.t) (filters : Filters.t) : list Restaurant.t :=
  filter (isVisible filters) restaurants.

(** [filtered.map(restaurant => L.marker(...))] *)
Definition markers (restaurants : list Restaurant.t) (filters : Filters.t) : list Marker :=
  map createMarker (filtered restaurants filters).

(** The view held by the Leaflet map instance: centre and zoom. *)
Record MapInstance : Type := mkMap {
  center : JsNumber * JsNumber;
  zoom : JsNumber
}.

(** [L.map(..., { center: [39.8283, -98.5795], zoom: 4 })] *)
Definition initialMap : MapInstance :=
  {| center := (Finite (398283 # 10000), Finite (-985795 # 10000));
     zoom := Finite (4 # 1) |}.

(** The marker cluster group: the layers it holds. *)
Definition ClusterGroup : Type := list Marker.

Definition clearLayers (g : ClusterGroup) : ClusterGroup := [].

Definition addLayers (g : ClusterGroup) (ms : list Marker) : ClusterGroup := g ++ ms.

(** The refs of the component: both are [null] until the map is created. *)
Record Refs : Type := mkRefs {
  mapInstanceRef : option MapInstance;
  clusterGroupRef : option ClusterGroup
}.

(** The effect "update markers when restaurants or filters change"
    (lines 130-156): the new content of the refs. *)
Definition updateMarkers (refs : Refs) (restaurants : list Restaurant.t)
    (filters : Filters.t) : Refs :=
  match mapInstanceRef refs, clusterGroupRef refs with
  | Some map, Some clusterGroup =>
      {| mapInstanceRef := Some map;
         clusterGroupRef :=
           Some (addLayers (clearLayers clusterGroup) (markers restaurants filters)) |}
  | _, _ => refs
  end.

(** [iconCreateFunction]: the size class of a cluster icon. *)
Inductive SizeClass : Type := small | medium | large.

Definition sizeClass (count : nat) : SizeClass :=
  if (100 <? count)%nat then large
  else if (10 <? count)%nat then medium
  else small.

(** The options passed to [L.markerClusterGroup]. *)
Definition maxClusterRadius : nat := 50.

End MapView.

(** ** Clustering engine *)

Module Clustering.

Section Engine.

Context {A : Type}.

(** Modelled from the spec: the screen-space test "within
    [maxClusterRadiusPixels] of the seed" at the current viewport, which the
    marker-cluster widget computes and which is not part of the sources. *)
Variable near : A -> A -> bool.

(** Modelled from the spec: the grouping done by the marker-cluster widget
    ([leaflet.markercluster], not part of the sources), after section 4.2:
    entities are processed in order; each entity not yet clustered opens a
    cluster seeded at its position and absorbs every remaining unclustered
    entity within the radius. *)
Equations? cluster (l : list A) : list (list A) by wf (List.length l) lt :=
  cluster [] := [];
  cluster (seed :: rest) :=
    (seed :: filter (near seed) rest)
    :: cluster (filter (fun e => negb (near seed e)) rest).
Proof.
  pose proof (filter_length_le (fun e => negb (near seed e)) rest). lia.
Qed.

End Engine.

(** Modelled from the spec: a cluster node, with the seed as its centre and
    the number of absorbed entities as its count. *)
Record ClusterNode (A : Type) : Type := mkNode {
  seed : A;
  members : list A;
  count : nat
}.

Arguments mkNode {A}.
Arguments seed {A}.
Arguments members {A}.
Arguments count {A}.

(** Modelled from the spec: the node of a group of absorbed entities (a
    single-entity node when the group has one member). *)
Definition node {A : Type} (group : list A) : option (ClusterNode A) :=
  match group with
  | [] => None
  | s :: _ => Some {| seed := s; members := group; count := List.length group |}
  end.

(** Modelled from the spec: the sequence of cluster nodes, in the order the
    clusters were opened. *)
Fixpoint nodes {A : Type} (groups : list (list A)) : list (ClusterNode A) :=
  match groups with
  | [] => []
  | g :: gs =>
      match node g with
      | Some n => n :: nodes gs
      | None => nodes gs
      end
  end.

(** Modelled from the spec: the bounding box of a viewport, the visible
    geographic window. *)
Record BoundingBox : Type := mkBounds {
  south : JsNumber;
  west : JsNumber;
  north : JsNumber;
  east : JsNumber
}.

(** Modelled from the spec: the viewport of the clustering contract,
    [{center, zoomLevel, boundingBox}]. *)
Record Viewport : Type := mkViewport {
  viewCenter : JsNumber * JsNumber;
  zoomLevel : JsNumber;
  boundingBox : BoundingBox
}.

(** Modelled from the spec: the configuration of the clustering contract,
    [{maxClusterRadiusPixels, minZoomToSplit}]. *)
Record Config : Type := mkConfig {
  maxClusterRadiusPixels : nat;
  minZoomToSplit : nat
}.

(** [a < b] on numbers: false when either side is NaN. *)
Definition ltNumber (a b : JsNumber) : bool :=
  match a, b with
  | NaN, _ | _, NaN => false
  | Infinity true, Infinity true => false
  | Infinity true, _ => true
  | _, Infinity true => false
  | Infinity false, _ => false
  | _, Infinity false => true
  | Finite x, Finite y => negb (Qle_bool y x)
  end.

(** Modelled from the spec: bounds with a NaN in them. *)
Definition nanBounds (b : BoundingBox) : bool :=
  isNaN (south b) || isNaN (west b) || isNaN (north b) || isNaN (east b).

(** Modelled from the spec: degenerate bounds, a box with no extent from
    south to north or from west to east. *)
Definition degenerateBounds (b : BoundingBox) : bool :=
  negb (ltNumber (south b) (north b) && ltNumber (west b) (east b)).

(** Modelled from the spec: "a viewport with invalid bounds
    (NaN/degenerate)". *)
Definition invalidBounds (b : BoundingBox) : bool :=
  nanBounds b || degenerateBounds b.

(** Modelled from the spec: the error of the clustering contract. *)
Inductive ClusterError : Type := InvalidViewport.

(** Modelled from the spec: what the clustering operation hands back, the
    cluster set and the error it reports, if any. *)
Record ClusterResult (A : Type) : Type := mkResult {
  clusterSet : list (ClusterNode A);
  reported : option ClusterError
}.

Arguments mkResult {A}.
Arguments clusterSet {A}.
Arguments reported {A}.

(** Modelled from the spec: [cluster(entities, viewport, config)] of
    section 4.2, with its failure mode: a viewport with invalid bounds
    yields an empty cluster set and reports [InvalidViewport]; otherwise the
    entities are grouped, [within viewport config] being the screen-space
    distance test. *)
Definition clusterNodes {A : Type} (within : Viewport -> Config -> A -> A -> bool)
    (entities : list A) (viewport : Viewport) (config : Config) : ClusterResult A :=
  if invalidBounds (boundingBox viewport)
  then {| clusterSet := []; reported := Some InvalidViewport |}
  else {| clusterSet := nodes (cluster (within viewport config) entities);
          reported := None |}.

End Clustering.

(** ** [scripts/convert-data.js]: the CSV reader *)

Module Csv.

(** The double quote and the comma. *)
Definition quoteChar : ascii := ascii_of_nat 34.

Definition commaChar : ascii := ascii_of_nat 44.

(** The loop of [parseCSVLine] on the characters still to read, with the
    fields pushed so far, the field being read and the quote flag. *)
Fixpoint parseCSVLoop (line : string) (result : list string) (current : string)
    (inQuotes : bool) : list string :=
  match line with
  | EmptyString => result ++ [trim current]
  | String char rest =>
      if (char =? quoteChar)%char then
        parseCSVLoop rest result current (negb inQuotes)
      else if (char =? commaChar)%char && negb inQuotes then
        parseCSVLoop rest (result ++ [trim current]) EmptyString inQuotes
      else
        parseCSVLoop rest result (String.append current (String char EmptyString)) inQuotes
  end.

Definition parseCSVLine (line : string) : list string :=
  parseCSVLoop line [] EmptyString false.

(** [content.split('\n')]: the pieces between line feeds, at least one. *)
Fixpoint splitLines (content : string) : list string :=
  match content with
  | EmptyString => [EmptyString]
  | String c rest =>
      if (c =? ascii_of_nat 10)%char then EmptyString :: splitLines rest
      else match splitLines rest with
           | [] => [String c EmptyString]
           | first :: others => String c first :: others
           end
  end.

(** A row object: its own properties, in the order in which they were
    created (the conversion reads the properties by name only). *)
Definition RowObject : Type := list (string * string).

(** The own property [key] of the row, if there is one: [row[key]] for a
    key that [Object.prototype] does not define. *)
Fixpoint getProp (row : RowObject) (key : string) : option string :=
  match row with
  | [] => None
  | (k, v) :: row' => if k =? key then Some v else getProp row' key
  end.

Fixpoint replaceProp (row : RowObject) (key value : string) : RowObject :=
  match row with
  | [] => []
  | (k, v) :: row' =>
      if k =? key then (k, value) :: row' else (k, v) :: replaceProp row' key value
  end.

(** [row[key] = value] with a string value: an own property is overwritten
    in place, a new one is added last; the assignment to [__proto__] of a
    value that is not an object changes nothing. *)
Definition setProp (row : RowObject) (key value : string) : RowObject :=
  if key =? "__proto__" then row
  else match getProp row key with
       | Some _ => replaceProp row key value
       | None => row ++ [(key, value)]
       end.

Section WithToLowerCase.

Variable toLowerCase : string -> string.

(** [header.toLowerCase().trim()] *)
Definition headerKey (header : string) : string := trim (toLowerCase header).

(** [values[index] || ''] *)
Definition cell (values : list string) (index : nat) : string :=
  match orElse (nth_error values index) (Some EmptyString) with
  | Some v => v
  | None => EmptyString
  end.

(** [headers.forEach((header, index) => { row[...] = values[index] || '' })],
    from the header at position [index] on. *)
Fixpoint fillRow (headers : list string) (index : nat) (values : list string)
    (row : RowObject) : RowObject :=
  match headers with
  | [] => row
  | header :: headers' =>
      fillRow headers' (S index) values
              (setProp row (headerKey header) (cell values index))
  end.

(** The body of the loop of [parseCSV] for one line after the first. *)
Definition parseCSVStep (headers : list string) (data : list RowObject)
    (line : string) : list RowObject :=
  if negb (truthy (Some (trim line))) then data
  else data ++ [fillRow headers 0 (parseCSVLine line) []].

Definition parseCSV (content : string) : list RowObject :=
  match splitLines content with
  | [] => []
  | first :: others =>
      fold_left (parseCSVStep (parseCSVLine first)) others []
  end.

End WithToLowerCase.

(** The row as the conversion reads it ([row.name], [row.lat], ...). *)
Definition rowOf (row : RowObject) : Convert.Row := fun key => getProp row key.

End Csv.

(** The script as a whole: the two files are read, parsed and converted,
    and the records are put together. *)
Definition convertFiles (parseFloat : string -> JsNumber) (toLowerCase : string -> string)
    (chaseContent gdaContent : string) : list Restaurant.t :=
  Convert.allData parseFloat
    (map Csv.rowOf (Csv.parseCSV toLowerCase chaseContent))
    (map Csv.rowOf (Csv.parseCSV toLowerCase gdaContent)).

(** ** [src/pages/Home.jsx]: the state of the page around the search and
    the counts *)

Module HomeUi.

(** [restaurants.filter(r => r.program === 'amex').length] *)
Definition amexCount (restaurants : list Restaurant.t) : nat :=
  List.length (filter (fun r => Restaurant.program r =? "amex") restaurants).

(** [restaurants.filter(r => r.program === 'chase').length] *)
Definition chaseCount (restaurants : list Restaurant.t) : nat :=
  List.length (filter (fun r => Restaurant.program r =? "chase") restaurants).

(** The state of the search box: [searchQuery], [showSearchResults] and
    [flyToLocation]. *)
Record SearchState : Type := mkSearch {
  searchQuery : string;
  showSearchResults : bool;
  flyToLocation : option Home.FlyTo
}.

(** [useState('')], [useState(false)], [useState(null)] *)
Definition initialSearch : SearchState :=
  {| searchQuery := EmptyString; showSearchResults := false; flyToLocation := None |}.

(** [onFocus] *)
Definition onFocus (st : SearchState) : SearchState :=
  {| searchQuery := searchQuery st; showSearchResults := true;
     flyToLocation := flyToLocation st |}.

(** [handleCitySelect(city)] *)
Definition handleCitySelect (city : City.t) (st : SearchState) : SearchState :=
  {| searchQuery := City.name city; showSearchResults := false;
     flyToLocation := Some (Home.handleCitySelect city) |}.

(** [onFlyComplete = () => setFlyToLocation(null)] *)
Definition onFlyComplete (st : SearchState) : SearchState :=
  {| searchQuery := searchQuery st; showSearchResults := showSearchResults st;
     flyToLocation := None |}.

(** [showSearchResults && filteredCities.length > 0]: the dropdown is
    rendered. *)
Definition dropdownShown (toLowerCase : string -> string) (cities : list City.t)
    (st : SearchState) : bool :=
  showSearchResults st
  && (0 <? List.length (Home.filteredCities toLowerCase cities (searchQuery st)))%nat.

End HomeUi.

(** ** [src/components/Map.jsx]: the other effects and the locate button *)

Module MapEffects.


(** A call [map.flyTo([lat, lon], zoom, { duration: 1.5 })]. *)
Record FlyCall : Type := mkFlyCall {
  flyCenter : JsNumber * JsNumber;
  flyLevel : nat
}.

(** What a run of the effect "handle fly to location" comes to: no call
    (the guard returned), a call followed by [onFlyComplete], or a call that
    threw. *)
Inductive FlyResult : Type :=
| NoFly (st : HomeUi.SearchState)
| Flew (call : FlyCall) (st : HomeUi.SearchState)
| FlyThrew (st : HomeUi.SearchState).

Section WithLeaflet.

(** Leaflet is not part of the sources.  [latLngThrows lat lon] tells
    whether Leaflet rejects the pair as a position, in which case [flyTo],
    [setView] and [L.marker] throw before they change anything. *)
Variable latLngThrows : JsNumber -> JsNumber -> bool.

(** The effect "handle fly to location" (lines 49-55).  When [flyTo]
    throws, [onFlyComplete] is not reached and the target stays. *)
Definition flyEffect (refs : MapView.Refs) (st : HomeUi.SearchState) : FlyResult :=
  match HomeUi.flyToLocation st, MapView.mapInstanceRef refs with
  | Some target, Some _ =>
      if latLngThrows (Home.flyLat target) (Home.flyLon target)
      then FlyThrew st
      else Flew {| flyCenter := (Home.flyLat target, Home.flyLon target);
                   flyLevel := if (Home.flyZoom target =? 0)%nat then 12
                               else Home.flyZoom target |}
                (HomeUi.onFlyComplete st)
  | _, _ => NoFly st
  end.

End WithLeaflet.

(** [iconCreateFunction]: the side and the font size of a cluster icon, in
    pixels. *)
Definition iconSide (s : MapView.SizeClass) : nat :=
  match s with
  | MapView.small => 30
  | MapView.medium => 40
  | MapView.large => 50
  end.

Definition iconFontSize (s : MapView.SizeClass) : nat :=
  match s with
  | MapView.small => 12
  | MapView.medium => 14
  | MapView.large => 16
  end.

(** The marker of the user's position; [markerId] tells two marker objects
    apart. *)
Record UserMarker : Type := mkUserMarker {
  markerId : nat;
  userPosition : JsNumber * JsNumber
}.

(** The state around the locate button: the view of the map, if the map
    exists; [userMarkerRef]; the user markers that are on the map (none
    once the map is removed);
    [isLocating]; [locationError]; the position requests that have not been
    answered yet; the identity of the next marker object. *)
Record LocateState : Type := mkLocate {
  view : option MapView.MapInstance;
  userMarkerRef : option UserMarker;
  userLayers : list UserMarker;
  isLocating : bool;
  locationError : option string;
  pending : nat;
  nextId : nat
}.

(** The component once its map is created. *)
Definition mounted : LocateState :=
  {| view := Some MapView.initialMap; userMarkerRef := None; userLayers := [];
     isLocating := false; locationError := None; pending := 0; nextId := 0 |}.

(** The events around the locate button: a click, the two answers of
    [getCurrentPosition], the cleanup of the effect that created the map
    (lines 122-126) and a new run of that effect. *)
Inductive LocateEvent : Type :=
| ClickLocate
| PositionFound (latitude longitude : JsNumber)
| PositionFailed
| Cleanup
| MapCreated.

(** An event can occur: the button is [disabled] while locating; an answer
    needs a request that is not answered yet; the cleanup needs a map, and
    the map is created only when there is none. *)
Definition enabled (st : LocateState) (ev : LocateEvent) : bool :=
  match ev with
  | ClickLocate => negb (isLocating st)
  | PositionFound _ _ | PositionFailed => (0 <? pending st)%nat
  | Cleanup => match view st with Some _ => true | None => false end
  | MapCreated => match view st with Some _ => false | None => true end
  end.

(** [marker.remove()] *)
Definition removeLayer (m : UserMarker) (layers : list UserMarker) : list UserMarker :=
  filter (fun l => negb (markerId l =? markerId m)%nat) layers.

(** How a handler ended, with the state it left: it returned, or it
    threw. *)
Inductive StepResult : Type :=
| Returned (st : LocateState)
| Threw (st : LocateState).

Definition stateOf (r : StepResult) : LocateState :=
  match r with
  | Returned st | Threw st => st
  end.

Section WithLeaflet.

Variable latLngThrows : JsNumber -> JsNumber -> bool.

(** [handleLocate], the two callbacks of [getCurrentPosition], and the
    cleanup and creation of the map.  The success callback starts with
    [mapInstanceRef.current.setView([latitude, longitude], 12)]: it throws
    there when the map is gone or when Leaflet rejects the position, with
    nothing else done, so that [isLocating] stays as it is.  The cleanup
    removes the map with its layers and sets [mapInstanceRef] to [null];
    it leaves [userMarkerRef] as it is. *)
Definition locateStep (st : LocateState) (ev : LocateEvent) : StepResult :=
  match ev with
  | ClickLocate =>
      match view st with
      | None => Returned st
      | Some _ =>
          Returned {| view := view st; userMarkerRef := userMarkerRef st;
                      userLayers := userLayers st;
                      isLocating := true; locationError := None;
                      pending := S (pending st); nextId := nextId st |}
      end
  | PositionFound latitude longitude =>
      let answered :=
        {| view := view st; userMarkerRef := userMarkerRef st;
           userLayers := userLayers st;
           isLocating := isLocating st; locationError := locationError st;
           pending := Nat.pred (pending st); nextId := nextId st |} in
      match view st with
      | None => Threw answered
      | Some _ =>
          if latLngThrows latitude longitude then Threw answered
          else
            let layers := match userMarkerRef st with
                          | Some old => removeLayer old (userLayers st)
                          | None => userLayers st
                          end in
            let userMarker := {| markerId := nextId st;
                                 userPosition := (latitude, longitude) |} in
            Returned {| view := Some {| MapView.center := (latitude, longitude);
                                        MapView.zoom := Finite (12 # 1) |};
                        userMarkerRef := Some userMarker;
                        userLayers := layers ++ [userMarker];
                        isLocating := false; locationError := locationError st;
                        pending := Nat.pred (pending st); nextId := S (nextId st) |}
      end
  | PositionFailed =>
      Returned {| view := view st; userMarkerRef := userMarkerRef st;
                  userLayers := userLayers st;
                  isLocating := false;
                  locationError := Some "Unable to get your location";
                  pending := Nat.pred (pending st); nextId := nextId st |}
  | Cleanup =>
      Returned {| view := None; userMarkerRef := userMarkerRef st;
                  userLayers := [];
                  isLocating := isLocating st; locationError := locationError st;
                  pending := pending st; nextId := nextId st |}
  | MapCreated =>
      match view st with
      | Some _ => Returned st
      | None =>
          Returned {| view := Some MapView.initialMap;
                      userMarkerRef := userMarkerRef st;
                      userLayers := userLayers st;
                      isLocating := isLocating st; locationError := locationError st;
                      pending := pending st; nextId := nextId st |}
      end
  end.

(** The states reached from the mounted component by events that can
    occur; after a handler that threw, the state is as the handler left
    it. *)
Inductive reachable : LocateState -> Prop :=
| reachable_mounted : reachable mounted
| reachable_step st ev :
    reachable st -> enabled st ev = true ->
    reachable (stateOf (locateStep st ev)).

End WithLeaflet.

End MapEffects.

(** ** Sample data *)

Module Samples.

(** An entity of a third program, as the map page can load it. *)
Definition visaEntity : Restaurant.t :=
  {| Restaurant.name := Some "Don Angie";
     Restaurant.address := Some "103 Greenwich Ave";
     Restaurant.city := Some "New York";
     Restaurant.cuisine := None;
     Restaurant.neighborhood := None;
     Restaurant.state := Some "NY";
     Restaurant.website := None;
     Restaurant.lat := Finite (407378 # 10000);
     Restaurant.lon := Finite (-740022 # 10000);
     Restaurant.program := "visa" |}.

(** [parseFloat] on the numerals of the sample rows. *)
Definition parseFloat (s : string) : JsNumber :=
  if s =? "95" then Finite (95 # 1)
  else if s =? "10" then Finite (10 # 1)
  else if s =? "40.7" then Finite (407 # 10)
  else if s =? "-74" then Finite (-74 # 1)
  else NaN.

(** A row of the Chase file: a table of header names and cell values. *)
Definition row (cells : list (string * string)) : Convert.Row :=
  fun header =>
    match find (fun kv => fst kv =? header) cells with
    | Some kv => Some (snd kv)
    | None => None
    end.

(** A row whose latitude is the numeral 95. *)
Definition northRow : Convert.Row :=
  row [("name", "Polar"); ("address", "1 Ice Rd"); ("city", "Alert");
       ("cuisine", ""); ("neighborhood", ""); ("website", "");
       ("lat", "95"); ("lon", "10")].

(** A row with coordinates that parse, in range. *)
Definition nycRow : Convert.Row :=
  row [("name", "Don Angie"); ("address", "103 Greenwich Ave"); ("city", "New York");
       ("state", "NY"); ("website", ""); ("lat", "40.7"); ("lon", "-74")].

(** A row whose latitude cell is empty. *)
Definition blankRow : Convert.Row :=
  row [("name", "Nowhere"); ("address", ""); ("city", "");
       ("website", ""); ("lat", ""); ("lon", "10")].

(** An entity with the given name, city, state and program. *)
Definition entity (name city state program : string) (lat lon : Q) : Restaurant.t :=
  {| Restaurant.name := Some name;
     Restaurant.address := None;
     Restaurant.city := Some city;
     Restaurant.cuisine := None;
     Restaurant.neighborhood := None;
     Restaurant.state := Some state;
     Restaurant.website := None;
     Restaurant.lat := Finite lat;
     Restaurant.lon := Finite lon;
     Restaurant.program := program |}.

Definition girlAndTheGoat : Restaurant.t :=
  entity "Girl and the Goat" "Chicago" "IL" "chase" (418841 # 10000) (-876480 # 10000).

Definition neptuneOyster : Restaurant.t :=
  entity "Neptune Oyster" "Boston" "MA" "amex" (423632 # 10000) (-710560 # 10000).

(** Three entities of New York, two of them with the city in capitals. *)
Definition leBernardin : Restaurant.t :=
  entity "Le Bernardin" "NEW YORK" "NY" "chase" (407614 # 10000) (-739817 # 10000).

Definition gramercyTavern : Restaurant.t :=
  entity "Gramercy Tavern" "NEW YORK" "NY" "chase" (407385 # 10000) (-739884 # 10000).

Definition donAngie : Restaurant.t :=
  entity "Don Angie" "New York" "NY" "amex" (407378 # 10000) (-740022 # 10000).

Definition newYorkStore : list Restaurant.t := [leBernardin; gramercyTavern; donAngie].

(** Viewports for the clustering contract: the continental United States
    at zoom 4; a view whose bounds are NaN; a view collapsed to one point. *)
Definition usViewport : Clustering.Viewport :=
  {| Clustering.viewCenter := (Finite (398283 # 10000), Finite (-985795 # 10000));
     Clustering.zoomLevel := Finite (4 # 1);
     Clustering.boundingBox :=
       {| Clustering.south := Finite (24 # 1); Clustering.west := Finite (-125 # 1);
          Clustering.north := Finite (50 # 1); Clustering.east := Finite (-66 # 1) |} |}.



(** The configuration of the page: the radius passed to the cluster group;
    no zoom limit is set. *)
Definition pageConfig : Clustering.Config :=
  {| Clustering.maxClusterRadiusPixels := MapView.maxClusterRadius;
     Clustering.minZoomToSplit := 0 |}.

(** The two entities of the example store: A in New York (amex) and B in
    Los Angeles (chase). *)
Definition entityA : Restaurant.t :=
  {| Restaurant.name := Some "A";
     Restaurant.address := None;
     Restaurant.city := Some "New York";
     Restaurant.cuisine := None;
     Restaurant.neighborhood := None;
     Restaurant.state := None;
     Restaurant.website := None;
     Restaurant.lat := Finite (407 # 10);
     Restaurant.lon := Finite (-74 # 1);
     Restaurant.program := "amex" |}.

Definition entityB : Restaurant.t :=
  {| Restaurant.name := Some "B";
     Restaurant.address := None;
     Restaurant.city := Some "Los Angeles";
     Restaurant.cuisine := None;
     Restaurant.neighborhood := None;
     Restaurant.state := None;
     Restaurant.website := None;
     Restaurant.lat := Finite (34 # 1);
     Restaurant.lon := Finite (-1182 # 10);
     Restaurant.program := "chase" |}.

(** A line feed, and a Chase file of a header line and two lines, the first
    of them short of one cell. *)
Definition lf : string := String (ascii_of_nat 10) EmptyString.

Definition chaseFile : string :=
  String.append "Name,LAT,Lon"
    (String.append lf
       (String.append "Polar,95"
          (String.append lf
             (String.append "Don Angie,40.7,-74" lf)))).

(** A file without a latitude column. *)
Definition noLatFile : string :=
  String.append "name,lon" (String.append lf "Don Angie,-74").

(** The test of Leaflet's [LatLng]: a NaN coordinate is rejected. *)
Definition latLngThrows (lat lon : JsNumber) : bool := isNaN lat || isNaN lon.

(** The aggregate of Chicago. *)
Definition chicago : City.t :=
  {| City.name := "Chicago"; City.count := 1;
     City.lat := Finite (418841 # 10000); City.lon := Finite (-876480 # 10000);
     City.state := Some "IL" |}.

(** The locate state after a click on the button, and after the answer. *)
Definition locating : MapEffects.LocateState :=
  {| MapEffects.view := Some MapView.initialMap;
     MapEffects.userMarkerRef := None; MapEffects.userLayers := [];
     MapEffects.isLocating := true; MapEffects.locationError := None;
     MapEffects.pending := 1; MapEffects.nextId := 0 |}.

Definition located : MapEffects.LocateState :=
  {| MapEffects.view :=
       Some {| MapView.center := (Finite (407 # 10), Finite (-74 # 1));
               MapView.zoom := Finite (12 # 1) |};
     MapEffects.userMarkerRef :=
       Some {| MapEffects.markerId := 0;
               MapEffects.userPosition := (Finite (407 # 10), Finite (-74 # 1)) |};
     MapEffects.userLayers :=
       [{| MapEffects.markerId := 0;
           MapEffects.userPosition := (Finite (407 # 10), Finite (-74 # 1)) |}];
     MapEffects.isLocating := false; MapEffects.locationError := None;
     MapEffects.pending := 0; MapEffects.nextId := 1 |}.

End Samples.

(** ** Vocabulary of the properties *)

(** [Subsequence l' l]: [l'] is obtained from [l] by deleting elements, the
    remaining ones keeping their order. *)
Inductive Subsequence {A : Type} : list A -> list A -> Prop :=
| Subsequence_nil : Subsequence [] []
| Subsequence_keep x l' l : Subsequence l' l -> Subsequence (x :: l') (x :: l)
| Subsequence_drop x l' l : Subsequence l' l -> Subsequence l' (x :: l).

(** Coordinates in range: latitude in [-90, 90], longitude in [-180, 180],
    neither NaN nor infinite. *)
Definition inRange (lo hi : Q) (x : JsNumber) : bool :=
  match x with
  | Finite q => Qle_bool lo q && Qle_bool q hi
  | _ => false
  end.

Definition validCoordinates (r : Restaurant.t) : bool :=
  inRange (-90 # 1) (90 # 1) (Restaurant.lat r)
  && inRange (-180 # 1) (180 # 1) (Restaurant.lon r).

(** A coordinate that passes the test of the conversion: a number other
    than NaN and zero. *)
Definition acceptedCoordinate (x : JsNumber) : Prop :=
  x <> NaN /\ forall q, x = Finite q -> ~ (q == 0)%Q.

(** A cell that is there and is not empty. *)
Definition nonEmptyCell (v : option string) : Prop :=
  exists s, v = Some s /\ s <> "".

(** A row of the Chase file that is written: both coordinates pass, and it
    has a name or a Google name. *)
Definition chaseRowWritten (parseFloat : string -> JsNumber) (row : Convert.Row) : Prop :=
  acceptedCoordinate (Convert.parseFloatOf parseFloat (row "lat"))
  /\ acceptedCoordinate (Convert.parseFloatOf parseFloat (row "lon"))
  /\ (nonEmptyCell (row "name") \/ nonEmptyCell (row "google_name")).

(** A row of the Amex file that is written: both coordinates pass. *)
Definition gdaRowWritten (parseFloat : string -> JsNumber) (row : Convert.Row) : Prop :=
  acceptedCoordinate (Convert.parseFloatOf parseFloat (row "lat"))
  /\ acceptedCoordinate (Convert.parseFloatOf parseFloat (row "lon")).

(** A written coordinate that is a number in the range from [lo] to [hi]. *)
Definition jsonInRange (lo hi : Q) (x : Convert.JsonNumber) : bool :=
  match x with
  | Convert.JsonNum q => Qle_bool lo q && Qle_bool q hi
  | Convert.JsonNull => false
  end.

(** The city under which an entity is indexed: its [city] when it is a
    non-empty string other than a member name of [Object.prototype]. *)
Definition indexedCity (r : Restaurant.t) : option string :=
  match Restaurant.city r with
  | Some c => if negb (c =? "") && negb (inherited c) then Some c else None
  | None => None
  end.

(** The indexed cities of the entities, in order, with repetitions. *)
Definition indexedCities (restaurants : list Restaurant.t) : list string :=
  flat_map (fun r => match indexedCity r with Some c => [c] | None => [] end)
           restaurants.

(** The entity is of the given city. *)
Definition hasCity (city : string) (r : Restaurant.t) : bool :=
  match Restaurant.city r with
  | Some c => c =? city
  | None => false
  end.

(** The number of entities of a city. *)
Definition entityCount (city : string) (restaurants : list Restaurant.t) : nat :=
  List.length (filter (hasCity city) restaurants).

(** [cityMap[key].count++] on the entry of [key], the other entries kept. *)
Definition bump (key : string) (kv : string * City.t) : string * City.t :=
  if fst kv =? key
  then (fst kv, {| City.name := City.name (snd kv);
                   City.count := S (City.count (snd kv));
                   City.lat := City.lat (snd kv); City.lon := City.lon (snd kv);
                   City.state := City.state (snd kv) |})
  else kv.

(** An entry of the city map: its name is its key and its count is the
    number of entities of that city. *)
Definition entryOf (restaurants : list Restaurant.t) (kv : string * City.t) : Prop :=
  City.name (snd kv) = fst kv
  /\ City.count (snd kv) = entityCount (fst kv) restaurants.

(** The distinct elements of a list, in order of first appearance. *)
Fixpoint firstOccurrences (l : list string) : list string :=
  match l with
  | [] => []
  | x :: l' => x :: filter (fun y => negb (y =? x)) (firstOccurrences l')
  end.

(** Sorted by descending count. *)
Definition countDescending (a b : City.t) : Prop := City.count b <= City.count a.

(** Sorted by descending count, ties by ascending name. *)
Definition countThenName (a b : City.t) : Prop :=
  City.count b < City.count a
  \/ (City.count a = City.count b
      /\ String.compare (City.name a) (City.name b) <> Gt).

(** The non-empty [city] values of the entities, in order, with
    repetitions. *)
Definition cityValues (restaurants : list Restaurant.t) : list string :=
  flat_map (fun r => match Restaurant.city r with
                     | Some c => if c =? "" then [] else [c]
                     | None => []
                     end) restaurants.

(** [x] appears in [l] before the first occurrence of [y]. *)
Definition firstBefore (l : list string) (x y : string) : Prop :=
  exists l1 l2, l = l1 ++ y :: l2 /\ In x l1 /\ ~ In y l1.

(** The name [x] comes before the name [y] among the cities first seen in
    the order [l]: names that are array indices come first, in ascending
    numeric order, then the other names in order of first appearance. *)
Definition propertyBefore (l : list string) (x y : string) : Prop :=
  match Home.arrayIndex x, Home.arrayIndex y with
  | Some i, Some j => (i <= j)%N
  | Some _, None => True
  | None, Some _ => False
  | None, None => firstBefore l x y
  end.

(** The order of the city index: a larger count first, and for equal counts
    the order [propertyBefore] of the names. *)
Definition indexOrder (restaurants : list Restaurant.t) (a b : City.t) : Prop :=
  City.count b < City.count a
  \/ (City.count a = City.count b
      /\ propertyBefore (cityValues restaurants) (City.name a) (City.name b)).

(** No entity has a member name of [Object.prototype] as its city. *)
Definition plainCities (restaurants : list Restaurant.t) : Prop :=
  forall r c, In r restaurants -> Restaurant.city r = Some c -> inherited c = false.

(** A query made of white space only (the empty query included). *)
Fixpoint whitespaceOnly (s : string) : bool :=
  match s with
  | EmptyString => true
  | String c s' => isWhiteSpace c && whitespaceOnly s'
  end.

Section SearchVocabulary.

Variable toLowerCase : string -> string.

(** The city name contains the query, case-insensitively. *)
Definition containsQuery (query : string) (c : City.t) : bool :=
  includes (toLowerCase (City.name c)) (toLowerCase query).

(** The city name equals the query, case-insensitively. *)
Definition exactMatch (query : string) (c : City.t) : bool :=
  toLowerCase (City.name c) =? toLowerCase query.

(** The city name starts with the query, case-insensitively. *)
Definition prefixMatch (query : string) (c : City.t) : bool :=
  startsWith (toLowerCase (City.name c)) (toLowerCase query).

(** The tier of a candidate: exact matches, then prefix matches, then the
    remaining ones. *)
Definition tier (query : string) (c : City.t) : nat :=
  if exactMatch query c then 0
  else if prefixMatch query c then 1
  else 2.

(** [a] is ranked no later than [b]: a lower tier, or the same tier and a
    count at least as large. *)
Definition ranked (query : string) (a b : City.t) : Prop :=
  tier query a < tier query b
  \/ (tier query a = tier query b /\ City.count b <= City.count a).

(** The ranking of the candidates, before truncation. *)
Definition ranking (idx : list City.t) (query : string) : list City.t :=
  sort (Home.compareMatches toLowerCase (toLowerCase query))
       (Home.matches toLowerCase idx (toLowerCase query)).

End SearchVocabulary.

(** The characters of a string, and the number of occurrences of one. *)
Definition chars (s : string) : list ascii := list_ascii_of_string s.

Fixpoint countChar (c : ascii) (s : string) : nat :=
  match s with
  | EmptyString => 0
  | String d s' => (if (d =? c)%char then 1 else 0) + countChar c s'
  end.

(** [items.join(',')] *)
Fixpoint joinComma (items : list string) : string :=
  match items with
  | [] => EmptyString
  | [item] => item
  | item :: items' => String.append item (String Csv.commaChar (joinComma items'))
  end.

(** A field as a CSV file writes it: between double quotes, or as it is. *)
Definition writeField (field : string * bool) : string :=
  if snd field
  then String Csv.quoteChar
         (String.append (fst field) (String Csv.quoteChar EmptyString))
  else fst field.

(** A field as the loop of [parseCSVLine] pushes it: trimmed, and without a
    double quote. *)
Definition cleanField (f : string) : Prop :=
  trim f = f /\ ~ In Csv.quoteChar (chars f).

(** A field that survives being written and read back: trimmed, without a
    double quote, and without a comma unless it is written between quotes. *)
Definition writableField (field : string * bool) : Prop :=
  trim (fst field) = fst field
  /\ countChar Csv.quoteChar (fst field) = 0
  /\ (snd field = false -> countChar Csv.commaChar (fst field) = 0).

(** A trimmed white-space-only line is what [parseCSV] skips. *)
Definition dataLines (content : string) : list string :=
  filter (fun line => negb (whitespaceOnly line)) (tl (Csv.splitLines content)).

(** The header line of a file. *)
Definition headerLine (content : string) : string :=
  hd EmptyString (Csv.splitLines content).

(** The position that the index keeps for a city: that of the entity. *)
Definition positionOf (r : Restaurant.t) (c : City.t) : Prop :=
  City.lat c = Restaurant.lat r /\ City.lon c = Restaurant.lon r
  /\ City.state c = Restaurant.state r.

(** The sum of the counts of a list of cities. *)
Definition totalCount (idx : list City.t) : nat := list_sum (map City.count idx).

(** What holds of the locate button in every state: the user markers on
    the map are at most one, the one of [userMarkerRef]; at most one
    position request is unanswered, and none unless locating; no error is
    shown while locating; no user marker is left when the map is gone. *)
Definition locateInvariant (st : MapEffects.LocateState) : Prop :=
  (forall m, In m (MapEffects.userLayers st) -> MapEffects.userMarkerRef st = Some m)
  /\ List.length (MapEffects.userLayers st) <= 1
  /\ MapEffects.pending st <= (if MapEffects.isLocating st then 1 else 0)
  /\ (MapEffects.isLocating st = true -> MapEffects.locationError st = None)
  /\ (MapEffects.view st = None -> MapEffects.userLayers st = []).

(** A position whose two coordinates are finite numbers. *)
Definition finitePosition (lat lon : JsNumber) : Prop :=
  exists a b, lat = Finite a /\ lon = Finite b.

(** * Properties *)

Import Home MapView.

(** ** Filter engine *)

Lemma eqb_amex_chase (p : string) :
  (p =? "amex") = true -> (p =? "chase") = false.
Proof.
  intros H. apply String.eqb_eq in H. subst p. reflexivity.
Qed.

(** The predicate of the marker update reads the flag of the entity's
    program, a program without a flag being visible. *)
Lemma isVisible_toggledOn (filters : Filters.t) (r : Restaurant.t) :
  isVisible filters r = Filters.toggledOn filters (Restaurant.program r).
Proof.
  unfold isVisible, Filters.toggledOn, Filters.entry.
  destruct (Restaurant.program r =? "amex") eqn:Ha.
  - destruct (Filters.amex filters); simpl; [|reflexivity].
    rewrite (eqb_amex_chase _ Ha). reflexivity.
  - destruct (Restaurant.program r =? "chase"); simpl; [|reflexivity].
    destruct (Filters.chase filters); reflexivity.
Qed.

Lemma isVisible_false_iff (filters : Filters.t) (r : Restaurant.t) :
  isVisible filters r = false <->
  Filters.entry filters (Restaurant.program r) = Some false.
Proof.
  rewrite isVisible_toggledOn. unfold Filters.toggledOn.
  destruct (Filters.entry filters (Restaurant.program r)) as [[|]|];
    split; congruence.
Qed.

Lemma filter_Subsequence {A : Type} (p : A -> bool) (l : list A) :
  Subsequence (filter p l) l.
Proof.
  induction l as [|x l IH]; simpl.
  - constructor.
  - destruct (p x); constructor; exact IH.
Qed.

(** C1: for every Point Store and every filter state, the visible set is a
    subsequence of the Point Store (same order), an entity of the store is
    excluded exactly when its program maps to [false] in the filter state,
    and an entity is visible if and only if it is in the store and its
    program is toggled on. *)
Theorem filtered_visible_set (restaurants : list Restaurant.t) (filters : Filters.t) :
  Subsequence (filtered restaurants filters) restaurants
  /\ (forall r, In r restaurants ->
        (~ In r (filtered restaurants filters) <->
         Filters.entry filters (Restaurant.program r) = Some false))
  /\ (forall r, In r (filtered restaurants filters) <->
        In r restaurants /\ Filters.toggledOn filters (Restaurant.program r) = true).
Proof.
  unfold filtered. split; [apply filter_Subsequence|]. split.
  - intros r Hin. rewrite <- isVisible_false_iff, filter_In. split.
    + intros Hn. destruct (isVisible filters r) eqn:Hv; [|reflexivity].
      exfalso. apply Hn. split; [exact Hin|reflexivity].
    + intros Hv [_ Hv']. congruence.
  - intros r. rewrite filter_In, isVisible_toggledOn. reflexivity.
Qed.

(** Each updater flips its own flag and keeps the other. *)
Lemma toggleAmex_entry (f : Filters.t) :
  Filters.amex (toggleAmex f) = negb (Filters.amex f)
  /\ Filters.chase (toggleAmex f) = Filters.chase f.
Proof. split; reflexivity. Qed.

Lemma toggleChase_entry (f : Filters.t) :
  Filters.chase (toggleChase f) = negb (Filters.chase f)
  /\ Filters.amex (toggleChase f) = Filters.amex f.
Proof. split; reflexivity. Qed.

(** On the two programs of the data files the count of the filter bar and
    the visible set agree. *)
Lemma isCounted_isVisible_known (filters : Filters.t) (r : Restaurant.t) :
  Restaurant.program r = "amex" \/ Restaurant.program r = "chase" ->
  isCounted filters r = isVisible filters r.
Proof.
  unfold isCounted, isVisible.
  intros [-> | ->]; simpl;
    destruct (Filters.amex filters), (Filters.chase filters); reflexivity.
Qed.

Lemma restaurantCount_markers_known (restaurants : list Restaurant.t) (filters : Filters.t) :
  Forall (fun r => Restaurant.program r = "amex" \/ Restaurant.program r = "chase")
         restaurants ->
  restaurantCount restaurants filters = List.length (markers restaurants filters).
Proof.
  unfold restaurantCount, markers, filtered. rewrite length_map.
  induction 1 as [|r l Hr _ IH]; simpl; [reflexivity|].
  rewrite (isCounted_isVisible_known _ _ Hr).
  destruct (isVisible filters r); simpl; now rewrite IH.
Qed.

(** C10, at the failing input: with one entity whose program is "visa" and
    both programs toggled on, the filter bar counts 0 restaurants while the
    map gets 1 marker. *)
Theorem count_differs_from_markers :
  restaurantCount [Samples.visaEntity] Filters.initial = 0
  /\ List.length (markers [Samples.visaEntity] Filters.initial) = 1.
Proof. split; reflexivity. Qed.

(** ** Data conversion *)

Section ConvertFacts.

Variable parseFloat : string -> JsNumber.

(** Splits a chain of [&&] that holds into its conjuncts. *)
Ltac split_andb H :=
  repeat (apply andb_prop in H; destruct H as [H ?]);
  repeat match goal with
         | Hn : negb _ = true |- _ => apply negb_true_iff in Hn
         end.

Lemma keepChase_coordinates (r : Restaurant.t) :
  Convert.keepChase r = true ->
  truthyNumber (Restaurant.lat r) = true /\ truthyNumber (Restaurant.lon r) = true
  /\ isNaN (Restaurant.lat r) = false /\ isNaN (Restaurant.lon r) = false
  /\ truthy (Restaurant.name r) = true.
Proof. unfold Convert.keepChase. intros H. split_andb H. auto. Qed.

Lemma keepGda_coordinates (r : Restaurant.t) :
  Convert.keepGda r = true ->
  truthyNumber (Restaurant.lat r) = true /\ truthyNumber (Restaurant.lon r) = true
  /\ isNaN (Restaurant.lat r) = false /\ isNaN (Restaurant.lon r) = false.
Proof. unfold Convert.keepGda. intros H. split_andb H. auto. Qed.

Lemma Subsequence_app {A : Type} (l1' l1 l2' l2 : list A) :
  Subsequence l1' l1 -> Subsequence l2' l2 -> Subsequence (l1' ++ l2') (l1 ++ l2).
Proof.
  induction 1; simpl; intros H2; [exact H2| |]; constructor; auto.
Qed.

Lemma truthyNumber_accepted (x : JsNumber) :
  truthyNumber x = true <-> acceptedCoordinate x.
Proof.
  unfold acceptedCoordinate. destruct x as [| |q]; simpl.
  - split; [discriminate|]. intros [H _]. congruence.
  - split; [|reflexivity]. intros _. split; [discriminate|]. discriminate.
  - rewrite negb_true_iff. split.
    + intros H. split; [discriminate|]. intros q' [= <-] Hq.
      apply Qeq_bool_iff in Hq. congruence.
    + intros [_ H]. destruct (Qeq_bool q 0) eqn:Hq; [|reflexivity].
      exfalso. apply (H q eq_refl). now apply Qeq_bool_iff.
Qed.

Lemma truthy_nonEmpty (v : option string) : truthy v = true <-> nonEmptyCell v.
Proof.
  unfold nonEmptyCell. destruct v as [s|]; simpl.
  - rewrite negb_true_iff, String.eqb_neq. split.
    + intros H. now exists s.
    + now intros [s' [[= <-] H]].
  - split; [discriminate|]. now intros [s [H _]].
Qed.

Lemma truthy_orElse (a b : option string) :
  truthy (orElse a b) = true <-> nonEmptyCell a \/ nonEmptyCell b.
Proof.
  rewrite <- !truthy_nonEmpty. unfold orElse.
  destruct (truthy a) eqn:Ha; [rewrite Ha; tauto|].
  split; [auto|]. intros [H|H]; [discriminate|exact H].
Qed.

(** The test of the Chase file, row by row. *)
Lemma keepChase_written (row : Convert.Row) :
  Convert.keepChase (Convert.chaseRecord parseFloat row) = true
  <-> chaseRowWritten parseFloat row.
Proof.
  unfold chaseRowWritten. rewrite <- !truthyNumber_accepted, <- truthy_orElse.
  split.
  - intros H. apply keepChase_coordinates in H. simpl in H. tauto.
  - intros [Hlat [Hlon Hname]]. unfold Convert.keepChase. simpl in *.
    rewrite Hlat, Hlon, Hname. simpl.
    destruct (Convert.parseFloatOf parseFloat (row "lat")); try discriminate;
      destruct (Convert.parseFloatOf parseFloat (row "lon")); try discriminate;
      reflexivity.
Qed.

(** The test of the Amex file, row by row. *)
Lemma keepGda_written (row : Convert.Row) :
  Convert.keepGda (Convert.gdaRecord parseFloat row) = true
  <-> gdaRowWritten parseFloat row.
Proof.
  unfold gdaRowWritten. rewrite <- !truthyNumber_accepted.
  split.
  - intros H. apply keepGda_coordinates in H. simpl in H. tauto.
  - intros [Hlat Hlon]. unfold Convert.keepGda. simpl in *.
    rewrite Hlat, Hlon. simpl.
    destruct (Convert.parseFloatOf parseFloat (row "lat")); try discriminate;
      destruct (Convert.parseFloatOf parseFloat (row "lon")); try discriminate;
      reflexivity.
Qed.

Lemma Subsequence_map {A B : Type} (f : A -> B) (l' l : list A) :
  Subsequence l' l -> Subsequence (map f l') (map f l).
Proof. induction 1; simpl; constructor; assumption. Qed.

(** C9 (as amended): the records written to [restaurants.json] are those of
    the rows whose latitude and longitude both parse to a number other than
    NaN and zero, and which, in the Chase file, have a name or a Google
    name; the range of a coordinate is not checked.  The other rows are
    dropped one by one: the written records keep the order of the rows,
    Chase file first.  A coordinate that parsed to a finite number is
    written as that number, which is not zero. *)
Theorem restaurantsJson_coordinates (chaseRows gdaRows : list Convert.Row) :
  (forall j, In j (Convert.restaurantsJson parseFloat chaseRows gdaRows) <->
     (exists row, In row chaseRows /\ chaseRowWritten parseFloat row
                  /\ j = Convert.stringifyRecord (Convert.chaseRecord parseFloat row))
     \/ (exists row, In row gdaRows /\ gdaRowWritten parseFloat row
                     /\ j = Convert.stringifyRecord (Convert.gdaRecord parseFloat row)))
  /\ Subsequence (Convert.restaurantsJson parseFloat chaseRows gdaRows)
       (map (fun row => Convert.stringifyRecord (Convert.chaseRecord parseFloat row))
            chaseRows
        ++ map (fun row => Convert.stringifyRecord (Convert.gdaRecord parseFloat row))
               gdaRows)
  /\ (forall j, In j (Convert.restaurantsJson parseFloat chaseRows gdaRows) ->
        acceptedCoordinate (Restaurant.lat (Convert.jsonProperties j))
        /\ acceptedCoordinate (Restaurant.lon (Convert.jsonProperties j))
        /\ (forall q, Restaurant.lat (Convert.jsonProperties j) = Finite q ->
              Convert.jsonLat j = Convert.JsonNum q /\ ~ (q == 0)%Q)
        /\ (forall q, Restaurant.lon (Convert.jsonProperties j) = Finite q ->
              Convert.jsonLon j = Convert.JsonNum q /\ ~ (q == 0)%Q)).
Proof.
  unfold Convert.restaurantsJson, Convert.allData, Convert.chaseData, Convert.gdaData.
  split; [|split].
  - intros j. rewrite in_map_iff. split.
    + intros [r [<- Hin]]. apply in_app_or in Hin.
      destruct Hin as [Hin|Hin]; apply filter_In in Hin; destruct Hin as [Hin Hk];
        apply in_map_iff in Hin; destruct Hin as [row [<- Hrow]]; [left|right];
        exists row; (split; [exact Hrow|]); (split; [|reflexivity]).
      * now apply keepChase_written.
      * now apply keepGda_written.
    + intros [[row [Hrow [Hk ->]]]|[row [Hrow [Hk ->]]]]; eexists;
        (split; [reflexivity|]); apply in_or_app; [left|right]; apply filter_In;
        (split; [now apply in_map|]).
      * now apply keepChase_written.
      * now apply keepGda_written.
  - rewrite map_app.
    rewrite <- (map_map (Convert.chaseRecord parseFloat) Convert.stringifyRecord).
    rewrite <- (map_map (Convert.gdaRecord parseFloat) Convert.stringifyRecord).
    rewrite <- !map_app. apply Subsequence_map.
    apply Subsequence_app; apply filter_Subsequence.
  - intros j Hj. apply in_map_iff in Hj. destruct Hj as [r [<- Hin]]. simpl.
    assert (H : truthyNumber (Restaurant.lat r) = true
                /\ truthyNumber (Restaurant.lon r) = true).
    { apply in_app_or in Hin.
      destruct Hin as [Hin|Hin]; apply filter_In in Hin; destruct Hin as [_ Hk].
      - apply keepChase_coordinates in Hk. tauto.
      - apply keepGda_coordinates in Hk. tauto. }
    destruct H as [Hlat Hlon]. apply truthyNumber_accepted in Hlat, Hlon.
    split; [exact Hlat|]. split; [exact Hlon|]. split.
    + intros q Hq. rewrite Hq. split; [reflexivity|]. now apply (proj2 Hlat).
    + intros q Hq. rewrite Hq. split; [reflexivity|]. now apply (proj2 Hlon).
Qed.

End ConvertFacts.

(** C9, counterexample: the row with latitude 95 passes the test of the
    Chase file and its record is written with the latitude 95, which is not
    in the range of a latitude; the rows around it are treated on their
    own. *)
Lemma out_of_range_record_enters :
  Convert.allData Samples.parseFloat [Samples.blankRow; Samples.northRow] [Samples.nycRow]
  = [Convert.chaseRecord Samples.parseFloat Samples.northRow;
     Convert.gdaRecord Samples.parseFloat Samples.nycRow]
  /\ validCoordinates (Convert.chaseRecord Samples.parseFloat Samples.northRow) = false
  /\ map Convert.jsonLat
         (Convert.restaurantsJson Samples.parseFloat
            [Samples.blankRow; Samples.northRow] [Samples.nycRow])
     = [Convert.JsonNum (95 # 1); Convert.JsonNum (407 # 10)]
  /\ jsonInRange (-90 # 1) (90 # 1) (Convert.JsonNum (95 # 1)) = false.
Proof. repeat split; reflexivity. Qed.

(** ** [Array.prototype.sort] *)

Section SortFacts.

Context {A : Type}.
Variable cmp : A -> A -> Z.

Lemma sortInsert_Permutation (x : A) (l : list A) :
  Permutation (sortInsert cmp x l) (x :: l).
Proof.
  induction l as [|y ys IH]; simpl; [reflexivity|].
  destruct (cmp x y <=? 0)%Z; [reflexivity|].
  rewrite IH. apply perm_swap.
Qed.

Lemma sort_Permutation (l : list A) : Permutation (sort cmp l) l.
Proof.
  induction l as [|x xs IH]; simpl; [reflexivity|].
  rewrite sortInsert_Permutation. now constructor.
Qed.

Lemma sort_In (l : list A) (x : A) : In x (sort cmp l) <-> In x l.
Proof.
  split; apply Permutation_in; [|symmetry]; apply sort_Permutation.
Qed.

Lemma sort_length (l : list A) : List.length (sort cmp l) = List.length l.
Proof. apply Permutation_length, sort_Permutation. Qed.

(** Stability: the elements of a class [P] whose members never compare
    greater than one another keep their order. *)
Lemma sortInsert_filter (P : A -> bool) (x : A) (l : list A) :
  (forall y, In y l -> P x = true -> P y = true -> (cmp x y <= 0)%Z) ->
  filter P (sortInsert cmp x l) = filter P (x :: l).
Proof.
  induction l as [|y ys IH]; intros Hc; simpl; [reflexivity|].
  destruct (cmp x y <=? 0)%Z eqn:Hxy; [reflexivity|].
  simpl. rewrite IH by (intros z Hz; apply Hc; now right). simpl.
  destruct (P x) eqn:Px; [|reflexivity].
  destruct (P y) eqn:Py; [|reflexivity].
  apply Z.leb_gt in Hxy. specialize (Hc y (or_introl eq_refl) eq_refl Py). lia.
Qed.

Lemma sort_stable (P : A -> bool) (l : list A) :
  (forall x y, P x = true -> P y = true -> (cmp x y <= 0)%Z) ->
  filter P (sort cmp l) = filter P l.
Proof.
  intros Hc. induction l as [|x xs IH]; simpl; [reflexivity|].
  rewrite sortInsert_filter by (intros; now apply Hc).
  simpl. now rewrite IH.
Qed.

(** With a comparator that is a total preorder the result is sorted. *)
Section Ordered.

Hypothesis cmp_total : forall a b, (0 < cmp a b)%Z -> (cmp b a <= 0)%Z.
Hypothesis cmp_trans :
  forall a b c, (cmp a b <= 0)%Z -> (cmp b c <= 0)%Z -> (cmp a c <= 0)%Z.

Lemma sortInsert_sorted (x : A) (l : list A) :
  StronglySorted (fun a b => (cmp a b <= 0)%Z) l ->
  StronglySorted (fun a b => (cmp a b <= 0)%Z) (sortInsert cmp x l).
Proof.
  induction 1 as [|y ys Hs IH Hy]; simpl.
  - constructor; constructor.
  - destruct (cmp x y <=? 0)%Z eqn:Hxy.
    + apply Z.leb_le in Hxy. constructor; [now constructor|].
      constructor; [exact Hxy|].
      eapply Forall_impl; [|exact Hy]. intros z Hz. now apply (cmp_trans x y z).
    + apply Z.leb_gt in Hxy. constructor; [exact IH|].
      apply (Permutation_Forall (symmetry (sortInsert_Permutation x ys))).
      constructor; [now apply cmp_total|exact Hy].
Qed.

Lemma sort_sorted (l : list A) :
  StronglySorted (fun a b => (cmp a b <= 0)%Z) (sort cmp l).
Proof.
  induction l as [|x xs IH]; simpl; [constructor|].
  now apply sortInsert_sorted.
Qed.

Lemma equivalent_refl (x : A) : equivalent cmp x x = true.
Proof.
  unfold equivalent. pose proof (cmp_total x x).
  assert (cmp x x <= 0)%Z by lia.
  apply andb_true_intro. split; now apply Z.leb_le.
Qed.

Lemma filter_head_In (P : A -> bool) (l : list A) (x : A) (t : list A) :
  filter P l = x :: t -> In x l /\ P x = true.
Proof.
  intros H. apply filter_In. rewrite H. now left.
Qed.

(** Two sorted lists that agree on every class of equivalent elements are
    equal: a stable sort has one possible result. *)
Lemma sorted_stable_unique (l1 l2 : list A) :
  StronglySorted (fun a b => (cmp a b <= 0)%Z) l1 ->
  StronglySorted (fun a b => (cmp a b <= 0)%Z) l2 ->
  (forall x, filter (equivalent cmp x) l1 = filter (equivalent cmp x) l2) ->
  l1 = l2.
Proof.
  intros H1. revert l2. induction H1 as [|x1 t1 Hs1 IH Hx1]; intros l2 H2 Hf.
  - destruct l2 as [|y t2]; [reflexivity|].
    specialize (Hf y). simpl in Hf. rewrite equivalent_refl in Hf. discriminate.
  - destruct H2 as [|x2 t2 Hs2 Hx2].
    + specialize (Hf x1). simpl in Hf. rewrite equivalent_refl in Hf. discriminate.
    + rewrite Forall_forall in Hx1, Hx2.
      assert (Heq : x1 = x2).
      { pose proof (Hf x1) as F1. pose proof (Hf x2) as F2. simpl in F1, F2.
        rewrite equivalent_refl in F1, F2.
        destruct (equivalent cmp x1 x2) eqn:E12; [now injection F1|].
        symmetry in F1. apply filter_head_In in F1. destruct F1 as [In1 _].
        assert (L21 : (cmp x2 x1 <= 0)%Z) by (apply Hx2; exact In1).
        destruct (equivalent cmp x2 x1) eqn:E21.
        - unfold equivalent in E12, E21. rewrite andb_comm in E21. congruence.
        - apply filter_head_In in F2. destruct F2 as [In2 _].
          assert (L12 : (cmp x1 x2 <= 0)%Z) by (apply Hx1; exact In2).
          unfold equivalent in E12. apply Z.leb_le in L12, L21.
          rewrite L12, L21 in E12. discriminate. }
      subst x2. f_equal. apply IH; [exact Hs2|].
      intros x. specialize (Hf x). simpl in Hf.
      destruct (equivalent cmp x x1); [now injection Hf|exact Hf].
Qed.

(** Whatever stable sorting algorithm is run with the comparator, its result
    is [sort cmp l]. *)
Lemma sort_unique (l l' : list A) :
  StronglySorted (fun a b => (cmp a b <= 0)%Z) l' ->
  (forall x, filter (equivalent cmp x) l' = filter (equivalent cmp x) l) ->
  l' = sort cmp l.
Proof.
  intros Hs Hf. apply sorted_stable_unique; [exact Hs|apply sort_sorted|].
  intros x. rewrite Hf. symmetry. apply sort_stable.
  intros a b Ha Hb. unfold equivalent in Ha, Hb.
  apply andb_prop in Ha, Hb. destruct Ha as [_ Ha], Hb as [Hb _].
  apply Z.leb_le in Ha, Hb. now apply (cmp_trans a x b).
Qed.

End Ordered.

(** Stability, as an order: when the input is ordered by [R], elements that
    compare equal stay ordered by [R] in the result. *)
Section Ties.

Variable R : A -> A -> Prop.
Hypothesis cmp_anti : forall a b, (0 < cmp a b)%Z -> (cmp b a < 0)%Z.
Hypothesis cmp_trans :
  forall a b c, (cmp a b <= 0)%Z -> (cmp b c <= 0)%Z -> (cmp a c <= 0)%Z.

Lemma sortInsert_ties (x : A) (l : list A) :
  Forall (R x) l ->
  StronglySorted (fun a b => (cmp a b < 0)%Z \/ ((cmp a b = 0)%Z /\ R a b)) l ->
  StronglySorted (fun a b => (cmp a b < 0)%Z \/ ((cmp a b = 0)%Z /\ R a b))
                 (sortInsert cmp x l).
Proof.
  intros Hx Hs. induction Hs as [|y ys Hs IH Hy]; simpl.
  - constructor; constructor.
  - inversion Hx as [|? ? Hxy Hxs]; subst.
    destruct (cmp x y <=? 0)%Z eqn:Hle.
    + apply Z.leb_le in Hle. constructor; [now constructor|].
      rewrite Forall_forall in Hx, Hy. apply Forall_forall. intros z Hz.
      assert (Hxz : (cmp x z <= 0)%Z).
      { destruct Hz as [<-|Hz]; [exact Hle|].
        apply (cmp_trans x y z); [exact Hle|].
        destruct (Hy z Hz) as [H|[H _]]; lia. }
      specialize (Hx z Hz).
      destruct (Z.eq_dec (cmp x z) 0) as [He|Hne]; [right; now split|left; lia].
    + apply Z.leb_gt in Hle. constructor; [now apply IH|].
      apply (Permutation_Forall (symmetry (sortInsert_Permutation x ys))).
      constructor; [left; now apply cmp_anti|exact Hy].
Qed.

Lemma sort_ties (l : list A) :
  StronglySorted R l ->
  StronglySorted (fun a b => (cmp a b < 0)%Z \/ ((cmp a b = 0)%Z /\ R a b))
                 (sort cmp l).
Proof.
  induction 1 as [|x xs Hs IH Hx]; simpl; [constructor|].
  apply sortInsert_ties; [|exact IH].
  apply (Permutation_Forall (symmetry (sort_Permutation xs))). exact Hx.
Qed.

End Ties.

End SortFacts.

Lemma StronglySorted_impl {A : Type} (R S : A -> A -> Prop) (l : list A) :
  (forall a b, R a b -> S a b) -> StronglySorted R l -> StronglySorted S l.
Proof.
  intros HRS. induction 1 as [|x l Hs IH Hx]; constructor; [exact IH|].
  eapply Forall_impl; [|exact Hx]. intros b. apply HRS.
Qed.

Lemma firstn_In_incl {A : Type} (n : nat) (l : list A) (x : A) :
  In x (firstn n l) -> In x l.
Proof.
  intros H. rewrite <- (firstn_skipn n l). apply in_or_app. now left.
Qed.

Lemma StronglySorted_firstn {A : Type} (R : A -> A -> Prop) (n : nat) (l : list A) :
  StronglySorted R l -> StronglySorted R (firstn n l).
Proof.
  intros H. revert n. induction H as [|x l Hs IH Hx]; intros [|n]; simpl;
    try constructor.
  - apply IH.
  - rewrite Forall_forall in *. intros y Hy. apply Hx.
    now apply firstn_In_incl in Hy.
Qed.

(** In a sorted list everything cut off by [firstn] comes after everything
    kept. *)
Lemma StronglySorted_firstn_skipn {A : Type} (R : A -> A -> Prop) (n : nat) (l : list A) :
  StronglySorted R l ->
  forall a b, In a (firstn n l) -> In b (skipn n l) -> R a b.
Proof.
  intros H. revert n. induction H as [|x l Hs IH Hx]; intros [|n] a b; simpl;
    try contradiction.
  intros [<-|Ha] Hb.
  - rewrite Forall_forall in Hx. apply Hx.
    rewrite <- (firstn_skipn n l). apply in_or_app. now right.
  - now apply (IH n).
Qed.

Lemma StronglySorted_impl_In {A : Type} (R S : A -> A -> Prop) (l : list A) :
  (forall a b, In a l -> In b l -> R a b -> S a b) ->
  StronglySorted R l -> StronglySorted S l.
Proof.
  intros HRS H. induction H as [|x l Hs IH Hx]; constructor.
  - apply IH. intros a b Ha Hb. apply HRS; now right.
  - rewrite Forall_forall in *. intros b Hb.
    apply HRS; [now left|now right|now apply Hx].
Qed.

Lemma StronglySorted_app {A : Type} (R : A -> A -> Prop) (l1 l2 : list A) :
  StronglySorted R l1 -> StronglySorted R l2 ->
  (forall a b, In a l1 -> In b l2 -> R a b) ->
  StronglySorted R (l1 ++ l2).
Proof.
  intros H1 H2 Hc. induction H1 as [|x l Hs IH Hx]; simpl; [exact H2|].
  constructor.
  - apply IH. intros a b Ha Hb. apply Hc; [now right|exact Hb].
  - apply Forall_app. split; [exact Hx|].
    apply Forall_forall. intros b Hb. apply Hc; [now left|exact Hb].
Qed.

Lemma StronglySorted_map {A B : Type} (f : A -> B) (R : B -> B -> Prop) (l : list A) :
  StronglySorted (fun a b => R (f a) (f b)) l <-> StronglySorted R (map f l).
Proof.
  induction l as [|x l IH]; simpl.
  - split; constructor.
  - split; intros H; inversion H as [|? ? Hs Hx]; subst; constructor;
      try (now apply IH).
    + now rewrite Forall_map.
    + now rewrite Forall_map in Hx.
Qed.

Lemma StronglySorted_filter {A : Type} (R : A -> A -> Prop) (p : A -> bool) (l : list A) :
  StronglySorted R l -> StronglySorted R (filter p l).
Proof.
  induction 1 as [|x l Hs IH Hx]; simpl; [constructor|].
  destruct (p x); [|exact IH]. constructor; [exact IH|].
  rewrite Forall_forall in *. intros y Hy. apply Hx. now apply filter_In in Hy.
Qed.

(** ** City index *)

(** The part of a list before the first occurrence of one of its
    elements. *)
Lemma In_first_split (l : list string) (y : string) :
  In y l -> exists l1 l2, l = l1 ++ y :: l2 /\ ~ In y l1.
Proof.
  induction l as [|a l IH]; simpl; [contradiction|]. intros H.
  destruct (string_dec a y) as [->|Hne].
  - exists [], l. split; [reflexivity|]. intros [].
  - destruct H as [H|H]; [contradiction|].
    destruct (IH H) as [l1 [l2 [-> Hn]]].
    exists (a :: l1), l2. split; [reflexivity|].
    intros [Ha|Hin]; [contradiction|now apply Hn].
Qed.

Lemma firstBefore_cons (a : string) (l : list string) (x y : string) :
  y <> a -> firstBefore l x y -> firstBefore (a :: l) x y.
Proof.
  intros Hne [l1 [l2 [-> [Hx Hy]]]]. exists (a :: l1), l2.
  split; [reflexivity|]. split; [now right|].
  intros [H|H]; [congruence|contradiction].
Qed.

Lemma firstOccurrences_In (l : list string) (x : string) :
  In x (firstOccurrences l) <-> In x l.
Proof.
  induction l as [|a l IH]; simpl; [reflexivity|].
  rewrite filter_In, IH. split.
  - intros [H|[H _]]; auto.
  - intros [H|H]; [now left|].
    destruct (String.eqb_spec x a) as [->|Hne]; [now left|].
    right. split; [exact H|reflexivity].
Qed.

Lemma NoDup_snoc {A : Type} (l : list A) (x : A) :
  NoDup l -> ~ In x l -> NoDup (l ++ [x]).
Proof.
  intros Hl Hx. apply NoDup_rev in Hl. rewrite <- (rev_involutive (l ++ [x])).
  apply NoDup_rev. rewrite rev_app_distr. simpl. constructor; [|exact Hl].
  now rewrite <- in_rev.
Qed.

Lemma firstOccurrences_NoDup (l : list string) : NoDup (firstOccurrences l).
Proof.
  induction l as [|a l IH]; simpl; constructor.
  - rewrite filter_In. intros [_ H]. now rewrite String.eqb_refl in H.
  - now apply NoDup_filter.
Qed.

Lemma firstOccurrences_snoc (l : list string) (x : string) :
  firstOccurrences (l ++ [x]) =
  if existsb (String.eqb x) l then firstOccurrences l else firstOccurrences l ++ [x].
Proof.
  induction l as [|a l IH]; simpl; [reflexivity|].
  rewrite IH. destruct (existsb (String.eqb x) l).
  - rewrite orb_true_r. reflexivity.
  - rewrite orb_false_r, filter_app. simpl.
    destruct (x =? a); simpl; [now rewrite app_nil_r|reflexivity].
Qed.

Lemma getOwn_None (m : CityMap) (key : string) :
  getOwn m key = None <-> ~ In key (map fst m).
Proof.
  induction m as [|[k v] m IH]; simpl; [tauto|].
  destruct (String.eqb_spec k key) as [->|Hne].
  - split; [discriminate|]. intros H. exfalso. apply H. now left.
  - rewrite IH. tauto.
Qed.

Lemma increment_keys (m : CityMap) (key : string) :
  map fst (increment m key) = map fst m.
Proof.
  induction m as [|[k v] m IH]; simpl; [reflexivity|].
  destruct (k =? key); simpl; [reflexivity|now rewrite IH].
Qed.

Lemma increment_absent (m : CityMap) (key : string) :
  ~ In key (map fst m) -> increment m key = m.
Proof.
  induction m as [|[k v] m IH]; simpl; intros H; [reflexivity|].
  destruct (String.eqb_spec k key) as [->|Hne]; [tauto|].
  rewrite IH; tauto.
Qed.

Lemma increment_bump (m : CityMap) (key : string) :
  NoDup (map fst m) -> increment m key = map (bump key) m.
Proof.
  induction m as [|[k v] m IH]; simpl; intros Hnd; [reflexivity|].
  inversion Hnd as [|? ? Hk Hm]; subst. unfold bump at 1. simpl.
  destruct (String.eqb_spec k key) as [->|Hne].
  - f_equal. rewrite <- (increment_absent m key Hk) at 1.
    rewrite IH by exact Hm. reflexivity.
  - now rewrite IH.
Qed.

Lemma indexedCity_hasCity (r : Restaurant.t) (c k : string) :
  indexedCity r = Some c -> hasCity k r = (c =? k).
Proof.
  unfold indexedCity, hasCity. destruct (Restaurant.city r) as [c'|]; [|discriminate].
  destruct (negb (c' =? "") && negb (inherited c')); [|discriminate].
  now intros [= ->].
Qed.

Lemma indexedCity_eligible (r : Restaurant.t) (c : string) :
  indexedCity r = Some c <->
  Restaurant.city r = Some c /\ c <> "" /\ inherited c = false.
Proof.
  unfold indexedCity. destruct (Restaurant.city r) as [c'|].
  - destruct (String.eqb_spec c' "") as [->|Hne]; simpl.
    + split; [discriminate|]. intros [[= <-] [H _]]. congruence.
    + destruct (inherited c') eqn:Hi; simpl.
      * split; [discriminate|]. intros [[= <-] [_ H]]. congruence.
      * split; [intros [= <-]; auto|]. now intros [[= <-] _].
  - split; [discriminate|]. now intros [H _].
Qed.

Lemma indexedCities_In (restaurants : list Restaurant.t) (c : string) :
  In c (indexedCities restaurants) <->
  exists r, In r restaurants /\ indexedCity r = Some c.
Proof.
  unfold indexedCities. rewrite in_flat_map. split.
  - intros [r [Hr Hc]]. exists r. split; [exact Hr|].
    destruct (indexedCity r); simpl in Hc; [|contradiction].
    destruct Hc as [->|[]]. reflexivity.
  - intros [r [Hr Hc]]. exists r. split; [exact Hr|]. rewrite Hc. now left.
Qed.

(** The body of the loop, on the keys. *)
Lemma visit_unindexed (m : CityMap) (r : Restaurant.t) :
  indexedCity r = None ->
  (forall k, In k (map fst m) -> hasCity k r = false) ->
  visit m r = m.
Proof.
  unfold visit, indexedCity, hasCity. intros Hi Hk.
  destruct (Restaurant.city r) as [c|]; [|reflexivity].
  simpl in *. destruct (c =? "") eqn:Hne; simpl in *; [reflexivity|].
  destruct (inherited c) eqn:Hin; simpl in Hi; [|discriminate].
  destruct (getOwn m c) eqn:Hg; [|reflexivity].
  assert (Hc : In c (map fst m)).
  { destruct (in_dec string_dec c (map fst m)) as [H|H]; [exact H|].
    apply getOwn_None in H. congruence. }
  specialize (Hk c Hc). now rewrite String.eqb_refl in Hk.
Qed.

Lemma visit_indexed (m : CityMap) (r : Restaurant.t) (c : string) :
  indexedCity r = Some c ->
  NoDup (map fst m) ->
  visit m r =
  if existsb (String.eqb c) (map fst m)
  then map (bump c) m
  else m ++ [(c, {| City.name := c; City.count := 1;
                    City.lat := Restaurant.lat r; City.lon := Restaurant.lon r;
                    City.state := Restaurant.state r |})].
Proof.
  intros Hi Hnd. apply indexedCity_eligible in Hi. destruct Hi as [Hc [Hne Hin]].
  unfold visit. rewrite Hc. simpl.
  destruct (String.eqb_spec c "") as [|_]; [contradiction|]. simpl.
  destruct (existsb (String.eqb c) (map fst m)) eqn:Hex.
  - destruct (getOwn m c) eqn:Hg.
    + now apply increment_bump.
    + apply getOwn_None in Hg. exfalso. apply Hg.
      apply existsb_exists in Hex. destruct Hex as [k [Hk Hck]].
      apply String.eqb_eq in Hck. now subst.
  - assert (Hn : ~ In c (map fst m)).
    { intros H. assert (existsb (String.eqb c) (map fst m) = true); [|congruence].
      apply existsb_exists. exists c. split; [exact H|apply String.eqb_refl]. }
    rewrite (proj2 (getOwn_None m c) Hn), Hin.
    rewrite increment_bump by (rewrite map_app; simpl; now apply NoDup_snoc).
    rewrite map_app. simpl. unfold bump at 2. simpl. rewrite String.eqb_refl.
    f_equal. rewrite <- (increment_absent m c Hn) at 2.
    symmetry. now apply increment_bump.
Qed.

Lemma cityMap_snoc (restaurants : list Restaurant.t) (r : Restaurant.t) :
  cityMap (restaurants ++ [r]) = visit (cityMap restaurants) r.
Proof. unfold cityMap. now rewrite fold_left_app. Qed.

Lemma indexedCities_snoc (restaurants : list Restaurant.t) (r : Restaurant.t) :
  indexedCities (restaurants ++ [r]) =
  indexedCities restaurants ++ match indexedCity r with Some c => [c] | None => [] end.
Proof. unfold indexedCities. rewrite flat_map_app. simpl. now rewrite app_nil_r. Qed.

Lemma entityCount_snoc (k : string) (restaurants : list Restaurant.t) (r : Restaurant.t) :
  entityCount k (restaurants ++ [r]) =
  entityCount k restaurants + (if hasCity k r then 1 else 0).
Proof.
  unfold entityCount. rewrite filter_app, length_app. simpl.
  now destruct (hasCity k r).
Qed.

Lemma existsb_eqb_In (c : string) (l : list string) :
  existsb (String.eqb c) l = true <-> In c l.
Proof.
  rewrite existsb_exists. split.
  - intros [k [Hk Hck]]. apply String.eqb_eq in Hck. now subst.
  - intros H. exists c. split; [exact H|apply String.eqb_refl].
Qed.

Lemma existsb_firstOccurrences (c : string) (l : list string) :
  existsb (String.eqb c) (firstOccurrences l) = existsb (String.eqb c) l.
Proof.
  apply eq_true_iff_eq. now rewrite !existsb_eqb_In, firstOccurrences_In.
Qed.

Lemma entityCount_unindexed (c : string) (restaurants : list Restaurant.t) :
  c <> "" -> inherited c = false -> ~ In c (indexedCities restaurants) ->
  entityCount c restaurants = 0.
Proof.
  intros Hne Hin Hc. unfold entityCount.
  induction restaurants as [|r l IH]; simpl; [reflexivity|].
  destruct (hasCity c r) eqn:Hh.
  - exfalso. apply Hc. apply indexedCities_In. exists r. split; [now left|].
    apply indexedCity_eligible. unfold hasCity in Hh.
    destruct (Restaurant.city r) as [c'|]; [|discriminate].
    apply String.eqb_eq in Hh. subst c'. auto.
  - apply IH. intros H. apply Hc. apply indexedCities_In.
    apply indexedCities_In in H. destruct H as [r' [Hr' Hi]].
    exists r'. split; [now right|exact Hi].
Qed.

(** The city map after the loop: one own property per indexed city, in
    order of first appearance, each counting the entities of its city. *)
Lemma cityMap_characterised (restaurants : list Restaurant.t) :
  map fst (cityMap restaurants) = firstOccurrences (indexedCities restaurants)
  /\ Forall (entryOf restaurants) (cityMap restaurants).
Proof.
  induction restaurants as [|r rs [IHk IHe]] using rev_ind.
  - split; [reflexivity|constructor].
  - assert (Hnd : NoDup (map fst (cityMap rs)))
      by (rewrite IHk; apply firstOccurrences_NoDup).
    rewrite cityMap_snoc, indexedCities_snoc.
    destruct (indexedCity r) as [c|] eqn:Hi.
    + rewrite firstOccurrences_snoc, (visit_indexed _ _ _ Hi Hnd), IHk.
      rewrite existsb_firstOccurrences.
      pose proof (proj1 (indexedCity_eligible r c) Hi) as [_ [Hne Hin]].
      destruct (existsb (String.eqb c) (indexedCities rs)) eqn:Hex.
      * split.
        -- rewrite map_map, <- IHk. apply map_ext. intros [k v]. unfold bump. simpl.
           now destruct (k =? c).
        -- rewrite Forall_map. eapply Forall_impl; [|exact IHe].
           intros [k v] [Hn Hc]. unfold entryOf, bump in *. simpl in *.
           destruct (k =? c) eqn:Hkc; simpl; (split; [exact Hn|]);
             rewrite entityCount_snoc, (indexedCity_hasCity _ _ k Hi), String.eqb_sym, Hkc;
             lia.
      * assert (Hc : ~ In c (indexedCities rs)).
        { intros H. apply existsb_eqb_In in H. congruence. }
        split.
        -- rewrite map_app, IHk. reflexivity.
        -- apply Forall_app. split.
           ++ rewrite Forall_forall in *. intros [k v] Hkv.
              destruct (IHe _ Hkv) as [Hn Hcount]. unfold entryOf in *. simpl in *.
              split; [exact Hn|].
              rewrite entityCount_snoc, (indexedCity_hasCity _ _ k Hi).
              destruct (String.eqb_spec c k) as [->|_]; [|lia].
              exfalso. apply Hc. rewrite <- firstOccurrences_In, <- IHk.
              apply in_map_iff. exists (k, v). now split.
           ++ constructor; [|constructor]. unfold entryOf. simpl. split; [reflexivity|].
              rewrite entityCount_snoc, (indexedCity_hasCity _ _ c Hi), String.eqb_refl.
              rewrite (entityCount_unindexed c rs Hne Hin Hc). reflexivity.
    + rewrite app_nil_r.
      assert (Hk : forall k, In k (map fst (cityMap rs)) -> hasCity k r = false).
      { intros k Hin. rewrite IHk, firstOccurrences_In in Hin.
        apply indexedCities_In in Hin. destruct Hin as [r' [_ Hr']].
        apply indexedCity_eligible in Hr'. destruct Hr' as [_ [Hne Hinh]].
        destruct (hasCity k r) eqn:Hh; [|reflexivity].
        unfold hasCity in Hh. destruct (Restaurant.city r) as [c'|] eqn:Hc; [|discriminate].
        apply String.eqb_eq in Hh. subst c'.
        assert (indexedCity r = Some k) by (apply indexedCity_eligible; auto).
        congruence. }
      rewrite (visit_unindexed _ _ Hi Hk). split; [exact IHk|].
      rewrite Forall_forall in *. intros [k v] Hkv.
      destruct (IHe _ Hkv) as [Hn Hcount]. unfold entryOf in *. simpl in *.
      split; [exact Hn|]. rewrite entityCount_snoc, Hk; [lia|].
      apply in_map_iff. exists (k, v). now split.
Qed.

Lemma entries_Permutation (m : CityMap) :
  Permutation (map snd (indexEntries m) ++ namedEntries m) (map snd m).
Proof.
  induction m as [|[k v] m IH]; simpl; [reflexivity|].
  destruct (arrayIndex k); simpl.
  - now constructor.
  - rewrite <- IH. symmetry. apply Permutation_middle.
Qed.

Lemma objectValues_Permutation (m : CityMap) :
  Permutation (objectValues m) (map snd m).
Proof.
  unfold objectValues. rewrite <- entries_Permutation.
  apply Permutation_app_tail, Permutation_map, sort_Permutation.
Qed.

(** Without array-index names the property order is the creation order. *)
Lemma objectValues_named (m : CityMap) :
  (forall k, In k (map fst m) -> arrayIndex k = None) ->
  objectValues m = map snd m.
Proof.
  intros H. unfold objectValues.
  assert (Hi : indexEntries m = [] /\ namedEntries m = map snd m).
  { induction m as [|[k v] m IH]; simpl; [auto|].
    rewrite (H k) by now left. simpl.
    destruct IH as [-> ->]; [intros; apply H; now right|auto]. }
  destruct Hi as [-> ->]. reflexivity.
Qed.

Lemma cityMap_names (restaurants : list Restaurant.t) :
  map City.name (map snd (cityMap restaurants)) = map fst (cityMap restaurants).
Proof.
  destruct (cityMap_characterised restaurants) as [_ He].
  induction He as [|[k v] m [Hn _] _ IH]; simpl; [reflexivity|].
  simpl in Hn. now rewrite Hn, IH.
Qed.

Lemma byCountDesc_le (a b : City.t) :
  (byCountDesc a b <= 0)%Z <-> countDescending a b.
Proof. unfold byCountDesc, countDescending. lia. Qed.

Lemma cities_countDescending (restaurants : list Restaurant.t) :
  StronglySorted countDescending (cities restaurants).
Proof.
  unfold cities. eapply StronglySorted_impl; [apply byCountDesc_le|].
  apply sort_sorted; unfold byCountDesc; intros; lia.
Qed.

(** The distinct elements come in order of first appearance. *)
Lemma firstOccurrences_sorted (l : list string) :
  StronglySorted (firstBefore l) (firstOccurrences l).
Proof.
  induction l as [|a l IH]; simpl; constructor.
  - apply (StronglySorted_impl_In (firstBefore l)).
    + intros x y _ Hy. apply filter_In in Hy. destruct Hy as [_ Hy].
      apply negb_true_iff, String.eqb_neq in Hy. now apply firstBefore_cons.
    + now apply StronglySorted_filter.
  - apply Forall_forall. intros y Hy. apply filter_In in Hy. destruct Hy as [Hy Hne].
    apply negb_true_iff, String.eqb_neq in Hne.
    apply (proj1 (firstOccurrences_In l y)) in Hy.
    destruct (In_first_split l y Hy) as [l1 [l2 [-> Hn]]].
    exists (a :: l1), l2. split; [reflexivity|]. split; [now left|].
    intros [H|H]; [congruence|contradiction].
Qed.

Lemma indexedCities_plain (restaurants : list Restaurant.t) :
  plainCities restaurants -> indexedCities restaurants = cityValues restaurants.
Proof.
  unfold indexedCities, cityValues.
  induction restaurants as [|r rs IH]; intros H; simpl; [reflexivity|].
  rewrite IH by (intros r' c Hr; apply H; now right). f_equal.
  unfold indexedCity. destruct (Restaurant.city r) as [c|] eqn:Hc; [|reflexivity].
  rewrite (H r c (or_introl eq_refl) Hc). now destruct (c =? "").
Qed.

Lemma namedEntries_filter (m : CityMap) :
  namedEntries m
  = map snd (filter (fun kv => match arrayIndex (fst kv) with
                               | Some _ => false
                               | None => true
                               end) m).
Proof.
  induction m as [|kv m IH]; simpl; [reflexivity|].
  destruct (arrayIndex (fst kv)); simpl; now rewrite IH.
Qed.

Lemma indexEntries_names (m : CityMap) :
  Forall (fun kv => City.name (snd kv) = fst kv) m ->
  Forall (fun p => arrayIndex (City.name (snd p)) = Some (fst p)) (indexEntries m).
Proof.
  induction 1 as [|kv m Hn _ IH]; simpl; [constructor|].
  destruct (arrayIndex (fst kv)) eqn:Hi; simpl; [|exact IH].
  constructor; [|exact IH]. simpl. now rewrite Hn.
Qed.

(** [Object.values] lists the cities in property order: array-index names
    in ascending numeric order, then the other names as they were
    created. *)
Lemma objectValues_order (l : list string) (m : CityMap) :
  Forall (fun kv => City.name (snd kv) = fst kv) m ->
  StronglySorted (firstBefore l) (map fst m) ->
  StronglySorted (fun a b => propertyBefore l (City.name a) (City.name b))
                 (objectValues m).
Proof.
  intros Hn Hs. unfold objectValues.
  set (byIndex := fun a b : N * City.t => (Z.of_N (fst a) - Z.of_N (fst b))%Z).
  assert (Hidx : Forall (fun p => arrayIndex (City.name (snd p)) = Some (fst p))
                        (sort byIndex (indexEntries m))).
  { apply (Permutation_Forall (symmetry (sort_Permutation byIndex _))).
    now apply indexEntries_names. }
  assert (Hnamed : forall b, In b (namedEntries m) ->
                     arrayIndex (City.name b) = None).
  { intros b Hb. rewrite namedEntries_filter in Hb. apply in_map_iff in Hb.
    destruct Hb as [kv [<- Hkv]]. apply filter_In in Hkv. destruct Hkv as [Hin Hkv].
    rewrite Forall_forall in Hn. rewrite (Hn kv Hin).
    now destruct (arrayIndex (fst kv)). }
  apply StronglySorted_app.
  - assert (Hsorted : StronglySorted (fun p q => (byIndex p q <= 0)%Z)
                                     (sort byIndex (indexEntries m)))
      by (apply sort_sorted; unfold byIndex; intros; lia).
    induction Hsorted as [|p ps Hps IH Hp]; simpl; [constructor|].
    inversion Hidx as [|? ? Hpi Hpsi]; subst.
    constructor; [now apply IH|].
    rewrite Forall_map. rewrite Forall_forall in *. intros q Hq.
    unfold propertyBefore. rewrite Hpi, (Hpsi q Hq).
    specialize (Hp q Hq). unfold byIndex in Hp. lia.
  - rewrite namedEntries_filter.
    apply (proj1 (StronglySorted_map snd
                    (fun a b => propertyBefore l (City.name a) (City.name b)) _)).
    apply (proj2 (StronglySorted_map fst (firstBefore l) m)) in Hs.
    apply (StronglySorted_impl_In (fun a b => firstBefore l (fst a) (fst b))).
    + intros a b Ha Hb Hab. apply filter_In in Ha, Hb.
      destruct Ha as [Ha Hai], Hb as [Hb Hbi]. rewrite Forall_forall in Hn.
      unfold propertyBefore. rewrite (Hn a Ha), (Hn b Hb).
      destruct (arrayIndex (fst a)); [discriminate|].
      destruct (arrayIndex (fst b)); [discriminate|]. exact Hab.
    + now apply StronglySorted_filter.
  - intros a b Ha Hb. apply in_map_iff in Ha. destruct Ha as [p [<- Hp]].
    rewrite Forall_forall in Hidx. unfold propertyBefore.
    now rewrite (Hidx p Hp), (Hnamed b Hb).
Qed.

(** The city index is ordered by descending count, and cities with equal
    counts keep the property order of the city map. *)
Lemma cities_indexOrder (restaurants : list Restaurant.t) :
  StronglySorted
    (fun a b => City.count b < City.count a
                \/ (City.count a = City.count b
                    /\ propertyBefore (indexedCities restaurants)
                                      (City.name a) (City.name b)))
    (cities restaurants).
Proof.
  destruct (cityMap_characterised restaurants) as [Hk He].
  unfold cities.
  eapply StronglySorted_impl;
    [|apply (sort_ties byCountDesc
               (fun a b => propertyBefore (indexedCities restaurants)
                                          (City.name a) (City.name b)))].
  - unfold byCountDesc. intros a b [H|[H Hab]]; [left; lia|right; split; [lia|exact Hab]].
  - unfold byCountDesc. intros; lia.
  - unfold byCountDesc. intros; lia.
  - apply objectValues_order.
    + eapply Forall_impl; [|exact He]. now intros kv [Hn _].
    + rewrite Hk. apply firstOccurrences_sorted.
Qed.

(** C3 (as amended): for entities none of whose city values is a member
    name of [Object.prototype], the city index has exactly one aggregate per
    distinct non-empty city value, counting the entities of that city; it is
    sorted by descending count, and cities with equal counts come in the
    property order of the city map: names that are array indices first, in
    ascending numeric order, then the other names in the order in which
    they first appear in the entity sequence. *)
Theorem cities_index (restaurants : list Restaurant.t) :
  plainCities restaurants ->
  NoDup (map City.name (cities restaurants))
  /\ (forall n, In n (map City.name (cities restaurants)) <->
        exists r, In r restaurants /\ Restaurant.city r = Some n /\ n <> "")
  /\ (forall c, In c (cities restaurants) ->
        City.count c = entityCount (City.name c) restaurants)
  /\ StronglySorted (indexOrder restaurants) (cities restaurants).
Proof.
  intros Hplain.
  destruct (cityMap_characterised restaurants) as [Hk He].
  assert (Hp : Permutation (cities restaurants) (map snd (cityMap restaurants))).
  { unfold cities. rewrite sort_Permutation. apply objectValues_Permutation. }
  assert (Hnames : Permutation (map City.name (cities restaurants))
                     (firstOccurrences (indexedCities restaurants))).
  { rewrite <- Hk, <- cityMap_names. now apply Permutation_map. }
  split; [|split; [|split]].
  - apply (Permutation_NoDup (symmetry Hnames)), firstOccurrences_NoDup.
  - intros n. split.
    + intros H. apply (Permutation_in _ Hnames) in H.
      apply firstOccurrences_In, indexedCities_In in H. destruct H as [r [Hr Hi]].
      exists r. split; [exact Hr|]. apply indexedCity_eligible in Hi. tauto.
    + intros [r [Hr [Hc Hne]]]. apply (Permutation_in _ (symmetry Hnames)).
      apply firstOccurrences_In, indexedCities_In. exists r. split; [exact Hr|].
      apply indexedCity_eligible. split; [exact Hc|]. split; [exact Hne|].
      now apply (Hplain r).
  - intros c Hc. apply (Permutation_in _ Hp) in Hc. apply in_map_iff in Hc.
    destruct Hc as [[k v] [<- Hkv]]. rewrite Forall_forall in He.
    destruct (He _ Hkv) as [Hn Hcount]. simpl in *. now rewrite Hn.
  - unfold indexOrder. rewrite <- (indexedCities_plain restaurants Hplain).
    apply cities_indexOrder.
Qed.

(** C3, witness: two entities of Chicago and Boston, one each: Chicago,
    seen first, comes first. *)
Lemma cities_index_witness :
  plainCities [Samples.girlAndTheGoat; Samples.neptuneOyster]
  /\ StronglySorted (indexOrder [Samples.girlAndTheGoat; Samples.neptuneOyster])
                    (cities [Samples.girlAndTheGoat; Samples.neptuneOyster]).
Proof.
  assert (H : plainCities [Samples.girlAndTheGoat; Samples.neptuneOyster]).
  { intros r c [<-|[<-|[]]] [= <-]; reflexivity. }
  split; [exact H|].
  apply (cities_index [Samples.girlAndTheGoat; Samples.neptuneOyster] H).
Defined.

(** Three cities with one entity each, two of them named by array indices:
    the index lists "1" and "2" first, in numeric order, although Boston was
    seen first and "2" before "1". *)
Example example_array_index_names :
  map City.name
      (cities [Samples.entity "Neptune Oyster" "Boston" "MA" "amex" (42 # 1) (-71 # 1);
               Samples.entity "Second" "2" "IL" "chase" (41 # 1) (-87 # 1);
               Samples.entity "First" "1" "NY" "chase" (40 # 1) (-74 # 1)])
  = ["1"; "2"; "Boston"].
Proof. reflexivity. Qed.

(** C3, counterexample: Chicago is seen first and Boston second, each once;
    the index lists Chicago before Boston, which is not the order of the
    names. *)
Lemma cities_ties_not_by_name :
  map (fun c => (City.name c, City.count c))
      (cities [Samples.girlAndTheGoat; Samples.neptuneOyster])
  = [("Chicago", 1); ("Boston", 1)]
  /\ ~ StronglySorted countThenName
         (cities [Samples.girlAndTheGoat; Samples.neptuneOyster]).
Proof.
  split; [reflexivity|].
  intros H. inversion H as [|a l _ Hall]; subst.
  inversion Hall as [|b l' Hab _]; subst.
  destruct Hab as [Hlt|[_ Hcmp]].
  - vm_compute in Hlt. lia.
  - apply Hcmp. reflexivity.
Qed.

(** ** Strings *)

Lemma prefix_refl (s : string) : String.prefix s s = true.
Proof.
  induction s as [|c s IH]; simpl; [reflexivity|].
  destruct (ascii_dec c c); [exact IH|congruence].
Qed.

Lemma prefix_append (q s : string) :
  String.prefix q s = true <-> exists post, s = String.append q post.
Proof.
  revert s. induction q as [|c q IH]; intros s.
  - split; [intros _; now exists s|intros _; destruct s; reflexivity].
  - destruct s as [|d s]; simpl.
    + split; [discriminate|]. intros [post H]. discriminate.
    + destruct (ascii_dec c d) as [->|Hne].
      * rewrite IH. split; intros [post H]; exists post; [now rewrite H|].
        now injection H.
      * split; [discriminate|]. intros [post H]. injection H. congruence.
Qed.

(** [includes s q] holds exactly when [q] occurs in [s]. *)
Lemma includes_substring (s q : string) :
  includes s q = true <->
  exists pre post, s = String.append pre (String.append q post).
Proof.
  induction s as [|c s IH].
  - change (includes "" q) with (String.prefix q "" || false).
    rewrite orb_false_r, prefix_append. split.
    + intros [post H]. now exists "", post.
    + intros [[|d pre] [post H]]; [now exists post|discriminate].
  - change (includes (String c s) q)
      with (String.prefix q (String c s) || includes s q).
    rewrite orb_true_iff, IH, prefix_append. split.
    + intros [[post H]|[pre [post H]]].
      * now exists "", post.
      * exists (String c pre), post. simpl. now rewrite H.
    + intros [[|d pre] [post H]].
      * left. now exists post.
      * right. exists pre, post. simpl in H. now injection H.
Qed.

Lemma startsWith_includes (s q : string) :
  startsWith s q = true -> includes s q = true.
Proof.
  unfold startsWith. intros H.
  destruct s as [|c s];
    [change (includes "" q) with (String.prefix q "" || false)
    |change (includes (String c s) q)
       with (String.prefix q (String c s) || includes s q)];
    rewrite H; reflexivity.
Qed.

Lemma trimStart_whitespaceOnly (s : string) :
  if whitespaceOnly s then trimStart s = ""
  else exists c s', trimStart s = String c s' /\ isWhiteSpace c = false.
Proof.
  induction s as [|c s IH]; simpl; [reflexivity|].
  destruct (isWhiteSpace c) eqn:Hc; simpl; [exact IH|].
  now exists c, s.
Qed.

Lemma trimEnd_nonempty (c : ascii) (s : string) :
  isWhiteSpace c = false -> trimEnd (String c s) <> "".
Proof.
  intros Hc. simpl. rewrite Hc. destruct (trimEnd s); discriminate.
Qed.

(** The test [!searchQuery.trim()] holds exactly for the white-space-only
    queries. *)
Lemma trim_blank (s : string) :
  negb (truthy (Some (trim s))) = whitespaceOnly s.
Proof.
  unfold trim, truthy. pose proof (trimStart_whitespaceOnly s) as H.
  destruct (whitespaceOnly s).
  - rewrite H. reflexivity.
  - destruct H as [c [s' [-> Hc]]].
    pose proof (trimEnd_nonempty c s' Hc) as Hne.
    destruct (String.eqb_spec (trimEnd (String c s')) ""); [contradiction|reflexivity].
Qed.

Lemma trim_nonempty (s : string) : trim s <> "" <-> whitespaceOnly s = false.
Proof.
  rewrite <- trim_blank. unfold truthy.
  destruct (String.eqb_spec (trim s) ""); simpl; split; congruence.
Qed.

(** ** City search *)

Section SearchFacts.

Variable toLowerCase : string -> string.

Lemma exactMatch_prefixMatch (query : string) (c : City.t) :
  exactMatch toLowerCase query c = true -> prefixMatch toLowerCase query c = true.
Proof.
  unfold exactMatch, prefixMatch, startsWith. intros H.
  apply String.eqb_eq in H. rewrite H. apply prefix_refl.
Qed.

Lemma prefixMatch_containsQuery (query : string) (c : City.t) :
  prefixMatch toLowerCase query c = true -> containsQuery toLowerCase query c = true.
Proof. apply startsWith_includes. Qed.

Lemma tier_exact (query : string) (c : City.t) :
  tier toLowerCase query c = 0 <-> exactMatch toLowerCase query c = true.
Proof.
  unfold tier. destruct (exactMatch toLowerCase query c); [tauto|].
  destruct (prefixMatch toLowerCase query c); split; discriminate.
Qed.

(** The comparator orders by tier, then by descending count. *)
Lemma compareMatches_ranked (query : string) (a b : City.t) :
  (compareMatches toLowerCase (toLowerCase query) a b <= 0)%Z
  <-> ranked toLowerCase query a b.
Proof.
  pose proof (exactMatch_prefixMatch query a) as Ha.
  pose proof (exactMatch_prefixMatch query b) as Hb.
  unfold compareMatches, ranked, tier, exactMatch, prefixMatch in *.
  destruct (toLowerCase (City.name a) =? toLowerCase query);
    destruct (toLowerCase (City.name b) =? toLowerCase query);
    destruct (startsWith (toLowerCase (City.name a)) (toLowerCase query));
    destruct (startsWith (toLowerCase (City.name b)) (toLowerCase query));
    simpl;
    try (specialize (Ha eq_refl); discriminate);
    try (specialize (Hb eq_refl); discriminate);
    lia.
Qed.

Lemma ranked_sorted (query : string) (l : list City.t) :
  StronglySorted (ranked toLowerCase query)
                 (sort (compareMatches toLowerCase (toLowerCase query)) l).
Proof.
  eapply StronglySorted_impl; [intros a b; apply compareMatches_ranked|].
  apply sort_sorted.
  - intros a b H.
    apply compareMatches_ranked.
    assert (Hn : ~ ranked toLowerCase query a b)
      by (rewrite <- compareMatches_ranked; lia).
    unfold ranked in *. lia.
  - intros a b c. rewrite !compareMatches_ranked. unfold ranked. lia.
Qed.

Lemma matches_In (idx : list City.t) (query : string) (c : City.t) :
  In c (matches toLowerCase idx (toLowerCase query))
  <-> In c idx /\ containsQuery toLowerCase query c = true.
Proof. unfold matches, containsQuery. apply filter_In. Qed.

Lemma filteredCities_nonblank (idx : list City.t) (query : string) :
  whitespaceOnly query = false ->
  filteredCities toLowerCase idx query = firstn 20 (ranking toLowerCase idx query).
Proof.
  intros H. unfold filteredCities. now rewrite trim_blank, H.
Qed.

Lemma filteredCities_blank (idx : list City.t) (query : string) :
  whitespaceOnly query = true ->
  filteredCities toLowerCase idx query = firstn 15 idx.
Proof.
  intros H. unfold filteredCities. now rewrite trim_blank, H.
Qed.

(** When some city is an exact match, the ranking starts with an exact
    match of largest count. *)
Lemma ranking_head_exact (idx : list City.t) (query : string) (c : City.t) :
  In c idx -> exactMatch toLowerCase query c = true ->
  exists c' rest,
    ranking toLowerCase idx query = c' :: rest
    /\ In c' idx
    /\ exactMatch toLowerCase query c' = true
    /\ (forall x, In x idx -> exactMatch toLowerCase query x = true ->
          City.count x <= City.count c').
Proof.
  intros Hin Hex.
  assert (Hsel : forall x, In x idx -> exactMatch toLowerCase query x = true ->
                   In x (ranking toLowerCase idx query)).
  { intros x Hx Hxe. unfold ranking. apply sort_In, matches_In. split; [exact Hx|].
    now apply prefixMatch_containsQuery, exactMatch_prefixMatch. }
  pose proof (ranked_sorted query (matches toLowerCase idx (toLowerCase query))) as Hs.
  fold (ranking toLowerCase idx query) in Hs.
  destruct (ranking toLowerCase idx query) as [|c' rest] eqn:Hr; [destruct (Hsel c Hin Hex)|].
  exists c', rest. split; [reflexivity|].
  assert (Hc' : In c' idx).
  { assert (H : In c' (ranking toLowerCase idx query)) by (rewrite Hr; now left).
    unfold ranking in H. apply sort_In, matches_In in H. tauto. }
  inversion Hs as [|? ? _ Hall]; subst. rewrite Forall_forall in Hall.
  assert (Hfirst : forall x, In x (c' :: rest) -> exactMatch toLowerCase query x = true ->
                     exactMatch toLowerCase query c' = true
                     /\ City.count x <= City.count c').
  { intros x [<-|Hx] Hxe; [split; [exact Hxe|lia]|].
    specialize (Hall x Hx). apply tier_exact in Hxe. unfold ranked in Hall.
    split; [apply tier_exact; lia|lia]. }
  split; [exact Hc'|]. split.
  - exact (proj1 (Hfirst c (Hsel c Hin Hex) Hex)).
  - intros x Hx Hxe. exact (proj2 (Hfirst x (Hsel x Hx Hxe) Hxe)).
Qed.

(** C4 (as amended): for a query that is not white space only, the
    candidates are exactly the cities of the index whose name contains the
    query as typed, case-insensitively; the result is the first 20 of their
    ranking, which puts exact matches first, then prefix matches, then the
    other ones, by descending count within a tier.  When the index has an
    exact match, the first result is an exact match of largest count; it is
    that city itself when no other city of the index is an exact match. *)
Theorem filteredCities_ranked (idx : list City.t) (query : string) :
  trim query <> "" ->
  exists candidates,
    filteredCities toLowerCase idx query = firstn 20 candidates
    /\ Permutation candidates (filter (containsQuery toLowerCase query) idx)
    /\ StronglySorted (ranked toLowerCase query) candidates
    /\ (forall c, In c idx -> exactMatch toLowerCase query c = true ->
          exists c' rest,
            filteredCities toLowerCase idx query = c' :: rest
            /\ exactMatch toLowerCase query c' = true
            /\ (forall x, In x idx -> exactMatch toLowerCase query x = true ->
                  City.count x <= City.count c')
            /\ ((forall x, In x idx -> exactMatch toLowerCase query x = true -> x = c) ->
                c' = c)).
Proof.
  intros Hq. apply trim_nonempty in Hq. exists (ranking toLowerCase idx query).
  split; [now apply filteredCities_nonblank|].
  split; [apply sort_Permutation|].
  split; [apply ranked_sorted|].
  intros c Hin Hex.
  destruct (ranking_head_exact idx query c Hin Hex) as [c' [rest [Hr [Hc' [He Hmax]]]]].
  exists c', (firstn 19 rest). split.
  - rewrite (filteredCities_nonblank _ _ Hq), Hr. reflexivity.
  - split; [exact He|]. split; [exact Hmax|].
    intros Huniq. now apply Huniq.
Qed.

End SearchFacts.

(** C4, counterexample: the index built from [newYorkStore] has the cities
    "NEW YORK" (2 entities) and "New York" (1 entity); the query "new york"
    is an exact match of both, and "New York", although present, comes
    second. *)
Lemma new_york_not_first :
  In "New York" (map City.name (cities Samples.newYorkStore))
  /\ map City.name
       (filteredCities toLowerCaseAscii (cities Samples.newYorkStore) "new york")
     = ["NEW YORK"; "New York"].
Proof. split; [right; left|]; reflexivity. Qed.

(** C4, witness: the query "new york" on the index of [newYorkStore]. *)
Lemma filteredCities_ranked_witness :
  trim "new york" <> ""
  /\ exists candidates,
       filteredCities toLowerCaseAscii (cities Samples.newYorkStore) "new york"
       = firstn 20 candidates
       /\ Permutation candidates
            (filter (containsQuery toLowerCaseAscii "new york")
                    (cities Samples.newYorkStore))
       /\ StronglySorted (ranked toLowerCaseAscii "new york") candidates
       /\ (forall c, In c (cities Samples.newYorkStore) ->
             exactMatch toLowerCaseAscii "new york" c = true ->
             exists c' rest,
               filteredCities toLowerCaseAscii (cities Samples.newYorkStore) "new york"
               = c' :: rest
               /\ exactMatch toLowerCaseAscii "new york" c' = true
               /\ (forall x, In x (cities Samples.newYorkStore) ->
                     exactMatch toLowerCaseAscii "new york" x = true ->
                     City.count x <= City.count c')
               /\ ((forall x, In x (cities Samples.newYorkStore) ->
                      exactMatch toLowerCaseAscii "new york" x = true -> x = c) ->
                   c' = c)).
Proof.
  split; [vm_compute; discriminate|].
  apply (filteredCities_ranked toLowerCaseAscii (cities Samples.newYorkStore) "new york").
  vm_compute. discriminate.
Defined.

Section SearchLimits.

Variable toLowerCase : string -> string.

Lemma firstn_nil_iff {A : Type} (n : nat) (l : list A) :
  firstn (S n) l = [] <-> l = [].
Proof. destruct l; simpl; split; congruence. Qed.

(** C5: on the city index of any entity list, a white-space-only (or empty)
    query returns the first 15 cities of the index, which are its top cities
    by descending count; any other query returns the first 20 of the ranked
    candidates; the result is never longer than the limit in force, and the
    two limits differ (15 < 20). *)
Theorem filteredCities_limits (restaurants : list Restaurant.t) (query : string) :
  (whitespaceOnly query = true ->
     filteredCities toLowerCase (cities restaurants) query
     = firstn 15 (cities restaurants)
     /\ StronglySorted countDescending
          (filteredCities toLowerCase (cities restaurants) query)
     /\ (forall a b,
           In a (filteredCities toLowerCase (cities restaurants) query) ->
           In b (skipn 15 (cities restaurants)) ->
           City.count b <= City.count a))
  /\ (whitespaceOnly query = false ->
        filteredCities toLowerCase (cities restaurants) query
        = firstn 20 (ranking toLowerCase (cities restaurants) query))
  /\ List.length (filteredCities toLowerCase (cities restaurants) query)
     <= (if whitespaceOnly query then 15 else 20)
  /\ 15 < 20.
Proof.
  pose proof (cities_countDescending restaurants) as Hs.
  split; [|split; [|split]].
  - intros Hq. rewrite (filteredCities_blank _ _ _ Hq).
    split; [reflexivity|]. split.
    + now apply StronglySorted_firstn.
    + intros a b. now apply (StronglySorted_firstn_skipn countDescending).
  - apply filteredCities_nonblank.
  - destruct (whitespaceOnly query) eqn:Hq.
    + rewrite (filteredCities_blank _ _ _ Hq). apply firstn_le_length.
    + rewrite (filteredCities_nonblank _ _ _ Hq). apply firstn_le_length.
  - lia.
Qed.

(** C6: the search returns a list for every index and query, and the list
    holds cities of the index only.  For a query that is not white space
    only, the result is the empty list exactly when no city name contains
    the query; for a white-space-only query no matching is applied and the
    result is empty exactly when the index is. *)
Theorem filteredCities_total (idx : list City.t) (query : string) :
  exists result,
    filteredCities toLowerCase idx query = result
    /\ incl result idx
    /\ (whitespaceOnly query = false ->
        (result = [] <->
         forall c, In c idx -> containsQuery toLowerCase query c = false))
    /\ (whitespaceOnly query = true -> (result = [] <-> idx = [])).
Proof.
  exists (filteredCities toLowerCase idx query). split; [reflexivity|].
  destruct (whitespaceOnly query) eqn:Hq.
  - rewrite (filteredCities_blank _ _ _ Hq).
    split; [intros c Hc; now apply firstn_In_incl in Hc|].
    split; [discriminate|]. intros _. apply firstn_nil_iff.
  - rewrite (filteredCities_nonblank _ _ _ Hq). split.
    + intros c Hc. apply firstn_In_incl in Hc.
      unfold ranking in Hc. apply sort_In, matches_In in Hc. tauto.
    + split; [intros _|discriminate]. rewrite firstn_nil_iff. split.
      * intros Hr c Hc.
        destruct (containsQuery toLowerCase query c) eqn:Hm; [|reflexivity].
        assert (H : In c (ranking toLowerCase idx query))
          by (unfold ranking; apply sort_In, matches_In; auto).
        rewrite Hr in H. destruct H.
      * intros H.
        destruct (ranking toLowerCase idx query) as [|c l] eqn:Hr; [reflexivity|].
        assert (Hc : In c (ranking toLowerCase idx query)) by (rewrite Hr; now left).
        unfold ranking in Hc. apply sort_In, matches_In in Hc. destruct Hc as [Hc Hm].
        rewrite (H c Hc) in Hm. discriminate.
Qed.

End SearchLimits.

(** ** Marker update and clustering *)

Import Clustering.


Section ClusterFacts.

Context {A : Type}.
Variable near : A -> A -> bool.



(** Every member of a cluster other than its seed is within the radius of
    the seed. *)
Lemma cluster_near (l : list A) :
  Forall (fun g => match g with
                   | [] => False
                   | s :: absorbed => Forall (fun e => near s e = true) absorbed
                   end) (cluster near l).
Proof.
  funelim (cluster near l); simp cluster; constructor; [|assumption].
  apply Forall_forall. intros e He. now apply filter_In in He.
Qed.



End ClusterFacts.

Lemma updateMarkers_layers (map : MapInstance) (group : ClusterGroup)
    (restaurants : list Restaurant.t) (filters : Filters.t) :
  updateMarkers {| mapInstanceRef := Some map; clusterGroupRef := Some group |}
                restaurants filters
  = {| mapInstanceRef := Some map;
       clusterGroupRef := Some (List.map createMarker (filtered restaurants filters)) |}.
Proof. reflexivity. Qed.

(** The clustering operation reports [InvalidViewport] exactly for the
    viewports with invalid bounds, and a NaN bound is such a viewport. *)
Lemma clusterNodes_reported {A : Type} (within : Viewport -> Config -> A -> A -> bool)
    (entities : list A) (viewport : Viewport) (config : Config) :
  reported (clusterNodes within entities viewport config) = Some InvalidViewport
  <-> invalidBounds (boundingBox viewport) = true.
Proof.
  unfold clusterNodes. destruct (invalidBounds (boundingBox viewport)); simpl.
  - tauto.
  - split; discriminate.
Qed.

Lemma ltNumber_NaN (a b : JsNumber) :
  isNaN a = true \/ isNaN b = true -> ltNumber a b = false.
Proof.
  intros [H|H].
  - destruct a; try discriminate. reflexivity.
  - destruct b; try discriminate. destruct a as [|[]|]; reflexivity.
Qed.

Lemma ltNumber_irrefl (a : JsNumber) : ltNumber a a = false.
Proof.
  destruct a as [|[]|q]; try reflexivity. simpl.
  assert (H : Qle_bool q q = true) by (apply Qle_bool_iff, Qle_refl).
  now rewrite H.
Qed.

(** A box with a NaN bound, or whose south and north (or west and east)
    coincide, has invalid bounds. *)
Lemma invalidBounds_cases (b : BoundingBox) :
  isNaN (south b) = true \/ isNaN (west b) = true
  \/ isNaN (north b) = true \/ isNaN (east b) = true
  \/ north b = south b \/ east b = west b ->
  invalidBounds b = true.
Proof.
  unfold invalidBounds, nanBounds, degenerateBounds.
  intros [H|[H|[H|[H|[H|H]]]]]; try (rewrite H; simpl; rewrite ?orb_true_r; reflexivity).
  - rewrite H, ltNumber_irrefl. simpl. apply orb_true_r.
  - rewrite H, ltNumber_irrefl. rewrite andb_false_r. apply orb_true_r.
Qed.






(** ** The example store *)

(** With amex on and chase off, only A is visible and counted. *)
Example example_visible :
  filtered [Samples.entityA; Samples.entityB]
           {| Filters.amex := true; Filters.chase := false |}
  = [Samples.entityA]
  /\ restaurantCount [Samples.entityA; Samples.entityB]
                     {| Filters.amex := true; Filters.chase := false |} = 1.
Proof. split; reflexivity. Qed.

(** The index of the example store, and the search for "los". *)
Example example_search :
  map (fun c => (City.name c, City.count c))
      (cities [Samples.entityA; Samples.entityB])
  = [("New York", 1); ("Los Angeles", 1)]
  /\ map (fun c => (City.name c, City.count c))
         (filteredCities toLowerCaseAscii
            (cities [Samples.entityA; Samples.entityB]) "los")
     = [("Los Angeles", 1)]
  /\ map City.name
         (filteredCities toLowerCaseAscii
            (cities [Samples.entityA; Samples.entityB]) "  ")
     = ["New York"; "Los Angeles"].
Proof. repeat split; reflexivity. Qed.

(** Clustering the visible set [A] at the continental view gives one node
    of count 1 seeded at A. *)
Example example_cluster (within : Viewport -> Config -> Restaurant.t -> Restaurant.t -> bool) :
  clusterSet (clusterNodes within [Samples.entityA] Samples.usViewport Samples.pageConfig)
  = [{| seed := Samples.entityA; members := [Samples.entityA]; count := 1 |}].
Proof. unfold clusterNodes. simpl. simp cluster. reflexivity. Qed.

(** ** The CSV reader *)

Lemma append_nil_r (s : string) : String.append s EmptyString = s.
Proof. induction s as [|c s IH]; simpl; [reflexivity|now rewrite IH]. Qed.

Lemma append_assoc (s t u : string) :
  String.append (String.append s t) u = String.append s (String.append t u).
Proof. induction s as [|c s IH]; simpl; [reflexivity|now rewrite IH]. Qed.

Lemma chars_append (s t : string) : chars (String.append s t) = chars s ++ chars t.
Proof. induction s as [|c s IH]; simpl; [reflexivity|]. unfold chars in *. simpl. now rewrite IH. Qed.

Lemma trimStart_chars (s : string) (c : ascii) :
  In c (chars (trimStart s)) -> In c (chars s).
Proof.
  induction s as [|d s IH]; simpl; [tauto|].
  destruct (isWhiteSpace d); [|tauto].
  intros H. right. now apply IH.
Qed.

Lemma trimEnd_chars (s : string) (c : ascii) :
  In c (chars (trimEnd s)) -> In c (chars s).
Proof.
  induction s as [|d s IH]; simpl; [tauto|].
  destruct (trimEnd s) as [|e t] eqn:Ht.
  - destruct (isWhiteSpace d); simpl; [tauto|]. intros [H|[]]. now left.
  - intros [H|H]; [now left|]. right. now apply IH.
Qed.

Lemma trim_chars (s : string) (c : ascii) : In c (chars (trim s)) -> In c (chars s).
Proof. unfold trim. intros H. now apply trimStart_chars, trimEnd_chars. Qed.

Lemma trimEnd_idempotent (s : string) : trimEnd (trimEnd s) = trimEnd s.
Proof.
  induction s as [|d s IH]; simpl; [reflexivity|].
  destruct (trimEnd s) as [|e t] eqn:Ht.
  - destruct (isWhiteSpace d) eqn:Hd; simpl; [reflexivity|]. now rewrite Hd.
  - simpl. simpl in IH. destruct (trimEnd t) as [|e' t'] eqn:Ht'.
    + destruct (isWhiteSpace e) eqn:He; [discriminate|]. now rewrite IH.
    + now rewrite IH.
Qed.

Lemma trimEnd_head (c : ascii) (s : string) :
  isWhiteSpace c = false -> exists t, trimEnd (String c s) = String c t.
Proof.
  intros Hc. simpl. rewrite Hc. destruct (trimEnd s) as [|e t]; eauto.
Qed.

(** Trimming twice is trimming once. *)
Lemma trim_idempotent (s : string) : trim (trim s) = trim s.
Proof.
  unfold trim. pose proof (trimStart_whitespaceOnly s) as H.
  destruct (whitespaceOnly s).
  - rewrite H. reflexivity.
  - destruct H as [c [s' [-> Hc]]].
    destruct (trimEnd_head c s' Hc) as [t Ht]. rewrite Ht.
    simpl trimStart. rewrite Hc, <- Ht. apply trimEnd_idempotent.
Qed.

Section CsvLineFacts.

Import Csv.

Lemma trim_cleanField (current : string) :
  ~ In quoteChar (chars current) -> cleanField (trim current).
Proof.
  intros H. split; [apply trim_idempotent|].
  intros Hq. apply H. now apply trim_chars.
Qed.

Lemma parseCSVLoop_clean (line : string) (result : list string) (current : string)
    (inQuotes : bool) :
  Forall cleanField result -> ~ In quoteChar (chars current) ->
  Forall cleanField (parseCSVLoop line result current inQuotes).
Proof.
  revert result current inQuotes.
  induction line as [|char rest IH]; intros result current inQuotes Hr Hc; simpl.
  - apply Forall_app. split; [exact Hr|]. constructor; [|constructor].
    now apply trim_cleanField.
  - destruct (Ascii.eqb_spec char quoteChar) as [->|Hne]; [now apply IH|].
    destruct ((char =? commaChar)%char && negb inQuotes).
    + apply IH; [|simpl; tauto]. apply Forall_app. split; [exact Hr|].
      constructor; [|constructor]. now apply trim_cleanField.
    + apply IH; [exact Hr|]. rewrite chars_append. intros H.
      apply in_app_or in H. destruct H as [H|[H|[]]]; [now apply Hc|congruence].
Qed.

Lemma parseCSVLoop_length (line : string) (result : list string) (current : string)
    (inQuotes : bool) :
  List.length result + 1 <= List.length (parseCSVLoop line result current inQuotes)
  /\ List.length (parseCSVLoop line result current inQuotes)
     <= List.length result + 1 + countChar commaChar line.
Proof.
  revert result current inQuotes.
  induction line as [|char rest IH]; intros result current inQuotes; simpl.
  - rewrite length_app. simpl. lia.
  - destruct (Ascii.eqb_spec char quoteChar) as [->|Hne].
    + specialize (IH result current (negb inQuotes)).
      destruct (quoteChar =? commaChar)%char; lia.
    + destruct (char =? commaChar)%char; simpl.
      * destruct inQuotes; simpl.
        -- specialize (IH result (String.append current (String char "")) true). lia.
        -- specialize (IH (result ++ [trim current]) "" false).
           rewrite length_app in IH. simpl in IH. lia.
      * specialize (IH result (String.append current (String char "")) inQuotes). lia.
Qed.

Lemma parseCSVLoop_unquoted (line : string) (result : list string) (current : string) :
  countChar quoteChar line = 0 ->
  List.length (parseCSVLoop line result current false)
  = List.length result + 1 + countChar commaChar line.
Proof.
  revert result current.
  induction line as [|char rest IH]; intros result current Hq; simpl.
  - rewrite length_app. simpl. lia.
  - simpl in Hq. destruct (char =? quoteChar)%char; [discriminate|].
    destruct (char =? commaChar)%char; simpl.
    + rewrite IH by exact Hq. rewrite length_app. simpl. lia.
    + rewrite IH by exact Hq. lia.
Qed.

(** X1: a parsed line always has at least one field and at most one more
    than it has commas; every field is trimmed (its surrounding white space
    is gone) and holds no double quote, quotes being dropped wherever they
    stand. *)
Theorem parseCSVLine_fields (line : string) :
  1 <= List.length (parseCSVLine line)
  /\ List.length (parseCSVLine line) <= 1 + countChar commaChar line
  /\ Forall (fun f => trim f = f /\ ~ In quoteChar (chars f)) (parseCSVLine line).
Proof.
  unfold parseCSVLine.
  pose proof (parseCSVLoop_length line [] "" false) as [Hlo Hhi]. simpl in Hlo, Hhi.
  split; [exact Hlo|]. split; [exact Hhi|].
  apply (parseCSVLoop_clean line [] "" false); [constructor|]. simpl. tauto.
Qed.

(** X2: on a line without double quotes every comma separates two fields:
    the number of fields is the number of commas plus one. *)
Theorem parseCSVLine_unquoted (line : string) :
  countChar quoteChar line = 0 ->
  List.length (parseCSVLine line) = 1 + countChar commaChar line.
Proof.
  intros H. unfold parseCSVLine. now rewrite parseCSVLoop_unquoted.
Qed.

End CsvLineFacts.

(** X2, witness: a line of three cells. *)
Lemma parseCSVLine_unquoted_witness :
  countChar Csv.quoteChar "name,lat,lon" = 0
  /\ List.length (Csv.parseCSVLine "name,lat,lon")
     = 1 + countChar Csv.commaChar "name,lat,lon".
Proof.
  split; [reflexivity|]. apply (parseCSVLine_unquoted "name,lat,lon"). reflexivity.
Defined.

Section CsvRoundTrip.

Import Csv.

Lemma parseCSVLoop_inside (s rest : string) (result : list string) (current : string) :
  countChar quoteChar s = 0 ->
  parseCSVLoop (String.append s rest) result current true
  = parseCSVLoop rest result (String.append current s) true.
Proof.
  revert current. induction s as [|c s IH]; intros current Hq; simpl.
  - now rewrite append_nil_r.
  - simpl in Hq. destruct (c =? quoteChar)%char; [discriminate|].
    rewrite andb_false_r, IH by exact Hq.
    now rewrite append_assoc.
Qed.

Lemma parseCSVLoop_plain (s rest : string) (result : list string) (current : string) :
  countChar quoteChar s = 0 -> countChar commaChar s = 0 ->
  parseCSVLoop (String.append s rest) result current false
  = parseCSVLoop rest result (String.append current s) false.
Proof.
  revert current. induction s as [|c s IH]; intros current Hq Hc; simpl.
  - now rewrite append_nil_r.
  - simpl in Hq, Hc. destruct (c =? quoteChar)%char; [discriminate|].
    destruct (c =? commaChar)%char; [discriminate|]. simpl.
    rewrite IH by assumption. now rewrite append_assoc.
Qed.

Lemma parseCSVLoop_field (field : string * bool) (rest : string) (result : list string) :
  writableField field ->
  parseCSVLoop (String.append (writeField field) rest) result EmptyString false
  = parseCSVLoop rest result (fst field) false.
Proof.
  destruct field as [f quoted]. intros [_ [Hq Hc]]. unfold writeField. simpl in *.
  destruct quoted.
  - simpl. rewrite append_assoc, parseCSVLoop_inside by exact Hq. reflexivity.
  - apply parseCSVLoop_plain; [exact Hq|now apply Hc].
Qed.

Lemma parseCSVLoop_join (first : string * bool) (others : list (string * bool))
    (result : list string) :
  Forall writableField (first :: others) ->
  parseCSVLoop (joinComma (List.map writeField (first :: others))) result EmptyString false
  = result ++ List.map fst (first :: others).
Proof.
  revert first result. induction others as [|second others IH]; intros first result Hw.
  - inversion Hw as [|? ? Hf _]; subst. simpl.
    rewrite <- (append_nil_r (writeField first)), (parseCSVLoop_field _ _ _ Hf).
    simpl. now rewrite (proj1 Hf).
  - inversion Hw as [|? ? Hf Hrest]; subst.
    change (joinComma (List.map writeField (first :: second :: others)))
      with (String.append (writeField first)
              (String commaChar (joinComma (List.map writeField (second :: others))))).
    rewrite (parseCSVLoop_field _ _ _ Hf).
    change (parseCSVLoop (String commaChar ?r) result (fst first) false)
      with (parseCSVLoop (joinComma (List.map writeField (second :: others)))
              (result ++ [trim (fst first)]) EmptyString false).
    rewrite (IH second _ Hrest), (proj1 Hf), <- app_assoc. reflexivity.
Qed.

(** X3: writing fields to a line and parsing the line gives the fields
    back.  The fields are joined by commas, each written as it is or between
    double quotes; a field may hold commas when it is quoted; fields are
    trimmed and hold no double quote. *)
Theorem parseCSVLine_roundtrip (first : string * bool) (others : list (string * bool)) :
  Forall writableField (first :: others) ->
  parseCSVLine (joinComma (List.map writeField (first :: others)))
  = List.map fst (first :: others).
Proof.
  intros Hw. unfold parseCSVLine. now rewrite parseCSVLoop_join.
Qed.

End CsvRoundTrip.

(** X3, witness: a line with a quoted address that holds a comma. *)
Lemma parseCSVLine_roundtrip_witness :
  Forall writableField
    [("Girl and the Goat", false); ("809 W Randolph St, Chicago", true); ("41.88", false)]
  /\ Csv.parseCSVLine
       (joinComma
          (List.map writeField
             [("Girl and the Goat", false); ("809 W Randolph St, Chicago", true);
              ("41.88", false)]))
     = ["Girl and the Goat"; "809 W Randolph St, Chicago"; "41.88"].
Proof.
  assert (H : Forall writableField
                [("Girl and the Goat", false); ("809 W Randolph St, Chicago", true);
                 ("41.88", false)]).
  { repeat constructor; simpl; try reflexivity; discriminate. }
  split; [exact H|].
  exact (parseCSVLine_roundtrip _ _ H).
Defined.

Section CsvFileFacts.

Import Csv.

Variable toLowerCase : string -> string.

Lemma splitLines_nonempty (content : string) : splitLines content <> [].
Proof.
  destruct content as [|c rest]; simpl; [discriminate|].
  destruct (c =? ascii_of_nat 10)%char; [discriminate|].
  destruct (splitLines rest); discriminate.
Qed.

Lemma parseCSV_fold (headers : list string) (lines : list string) (data : list RowObject) :
  fold_left (parseCSVStep toLowerCase headers) lines data
  = data ++ List.map (fun line => fillRow toLowerCase headers 0 (parseCSVLine line) [])
                     (filter (fun line => negb (whitespaceOnly line)) lines).
Proof.
  revert data. induction lines as [|line lines IH]; intros data; simpl.
  - now rewrite app_nil_r.
  - rewrite IH. unfold parseCSVStep. rewrite trim_blank.
    destruct (whitespaceOnly line); simpl; [reflexivity|].
    now rewrite <- app_assoc.
Qed.

(** The rows of a file: one per line after the first that is not white
    space only, built against the fields of the first line. *)
Lemma parseCSV_rows (content : string) :
  parseCSV toLowerCase content
  = List.map (fun line => fillRow toLowerCase (parseCSVLine (headerLine content)) 0
                                  (parseCSVLine line) [])
             (dataLines content).
Proof.
  unfold parseCSV, dataLines, headerLine.
  destruct (splitLines content) as [|first others]; [reflexivity|].
  simpl. now rewrite parseCSV_fold.
Qed.

Lemma cell_nth (values : list string) (index : nat) :
  cell values index = nth index values EmptyString.
Proof.
  unfold cell, orElse, truthy.
  destruct (nth_error values index) as [v|] eqn:Hn.
  - rewrite (nth_error_nth _ _ _ Hn).
    destruct (String.eqb_spec v ""); simpl; congruence.
  - apply nth_error_None in Hn. now rewrite nth_overflow.
Qed.

Lemma getProp_replaceProp (row : RowObject) (key value key' : string) :
  getProp (replaceProp row key value) key'
  = if key =? key' then match getProp row key with
                        | Some _ => Some value
                        | None => None
                        end
    else getProp row key'.
Proof.
  induction row as [|[k v] row IH]; simpl.
  - now destruct (key =? key').
  - destruct (String.eqb_spec k key) as [->|Hk]; simpl.
    + destruct (String.eqb_spec key key'); reflexivity.
    + rewrite IH. destruct (key =? key') eqn:Hkk; [|reflexivity].
      apply String.eqb_eq in Hkk. subst key'.
      destruct (String.eqb_spec k key); [contradiction|reflexivity].
Qed.

Lemma getProp_app (row : RowObject) (key value key' : string) :
  getProp (row ++ [(key, value)]) key'
  = match getProp row key' with
    | Some v => Some v
    | None => if key =? key' then Some value else None
    end.
Proof.
  induction row as [|[k v] row IH]; simpl; [reflexivity|].
  destruct (k =? key'); [reflexivity|exact IH].
Qed.

(** Reading after an assignment. *)
Lemma getProp_setProp (row : RowObject) (key value key' : string) :
  getProp (setProp row key value) key'
  = if (key =? key') && negb (key =? "__proto__") then Some value
    else getProp row key'.
Proof.
  unfold setProp. destruct (key =? "__proto__"); [now rewrite andb_false_r|].
  rewrite andb_true_r.
  destruct (getProp row key) as [v|] eqn:Hg.
  - rewrite getProp_replaceProp, Hg. reflexivity.
  - rewrite getProp_app.
    destruct (key =? key') eqn:Hkk.
    + apply String.eqb_eq in Hkk. subst key'. now rewrite Hg.
    + now destruct (getProp row key').
Qed.

Lemma fillRow_other (headers : list string) (index : nat) (values : list string)
    (row : RowObject) (key : string) :
  ~ In key (List.map (headerKey toLowerCase) headers) ->
  getProp (fillRow toLowerCase headers index values row) key = getProp row key.
Proof.
  revert index row. induction headers as [|h hs IH]; intros index row Hn; simpl;
    [reflexivity|].
  simpl in Hn. rewrite IH by tauto. rewrite getProp_setProp.
  destruct (String.eqb_spec (headerKey toLowerCase h) key); [tauto|reflexivity].
Qed.

Lemma fillRow_header (headers : list string) (index : nat) (values : list string)
    (row : RowObject) (i : nat) (h : string) :
  NoDup (List.map (headerKey toLowerCase) headers) ->
  headerKey toLowerCase h <> "__proto__" ->
  nth_error headers i = Some h ->
  getProp (fillRow toLowerCase headers index values row) (headerKey toLowerCase h)
  = Some (nth (index + i) values EmptyString).
Proof.
  revert index row i. induction headers as [|h0 hs IH]; intros index row i Hnd Hp Hi.
  - destruct i; discriminate.
  - simpl in Hnd. inversion Hnd as [|? ? Hnot Hnd']; subst. simpl.
    destruct i as [|i]; simpl in Hi.
    + injection Hi as ->. rewrite fillRow_other by exact Hnot.
      rewrite getProp_setProp, String.eqb_refl.
      destruct (String.eqb_spec (headerKey toLowerCase h) "__proto__"); [contradiction|].
      simpl. now rewrite cell_nth, Nat.add_0_r.
    + rewrite (IH (S index) _ i Hnd' Hp Hi). f_equal. f_equal. lia.
Qed.

(** X4: a file gives one row per line after the first that is not white
    space only, in the order of the lines: the n-th row is the object filled
    from the fields of the n-th such line under the header names; the header
    line and the blank lines give no row. *)
Theorem parseCSV_row_order (content : string) :
  List.length (parseCSV toLowerCase content) = List.length (dataLines content)
  /\ (forall n,
        nth_error (parseCSV toLowerCase content) n
        = option_map
            (fun line => fillRow toLowerCase (parseCSVLine (headerLine content)) 0
                                 (parseCSVLine line) [])
            (nth_error (dataLines content) n))
  /\ (dataLines content = [] -> parseCSV toLowerCase content = []).
Proof.
  rewrite parseCSV_rows, length_map. split; [reflexivity|]. split.
  - intros n. apply nth_error_map.
  - now intros ->.
Qed.

(** X5: with header names that differ after lower-casing and trimming and
    none of which is [__proto__], every row of a file holds, under each
    header name, the field of its line in that column, or the empty string
    when the line is too short; a name that is neither a header nor a
    member name of [Object.prototype] is not defined. *)
Theorem parseCSV_cells (content : string) (n : nat) (line : string)
    (i : nat) (h : string) :
  NoDup (List.map (headerKey toLowerCase) (parseCSVLine (headerLine content))) ->
  ~ In "__proto__" (List.map (headerKey toLowerCase) (parseCSVLine (headerLine content))) ->
  nth_error (dataLines content) n = Some line ->
  nth_error (parseCSVLine (headerLine content)) i = Some h ->
  exists row,
    nth_error (parseCSV toLowerCase content) n = Some row
    /\ getProp row (headerKey toLowerCase h)
       = Some (nth i (parseCSVLine line) EmptyString)
    /\ (forall key,
          ~ In key (List.map (headerKey toLowerCase) (parseCSVLine (headerLine content))) ->
          inherited key = false ->
          getProp row key = None).
Proof.
  intros Hnd Hp Hline Hh. rewrite parseCSV_rows.
  eexists. split; [apply map_nth_error; exact Hline|]. split.
  - rewrite (fillRow_header _ 0 _ _ i h Hnd); [reflexivity| |exact Hh].
    intros Heq. apply Hp. rewrite <- Heq. apply in_map. eapply nth_error_In. exact Hh.
  - intros key Hk _. now rewrite fillRow_other.
Qed.

End CsvFileFacts.

(** X5, witness: in [chaseFile] the first line after the header has no
    longitude cell, and its row reads the empty string there. *)
Lemma parseCSV_cells_witness :
  NoDup (List.map (Csv.headerKey toLowerCaseAscii)
           (Csv.parseCSVLine (headerLine Samples.chaseFile)))
  /\ ~ In "__proto__" (List.map (Csv.headerKey toLowerCaseAscii)
                         (Csv.parseCSVLine (headerLine Samples.chaseFile)))
  /\ nth_error (dataLines Samples.chaseFile) 0 = Some "Polar,95"
  /\ nth_error (Csv.parseCSVLine (headerLine Samples.chaseFile)) 2 = Some "Lon"
  /\ exists row,
       nth_error (Csv.parseCSV toLowerCaseAscii Samples.chaseFile) 0 = Some row
       /\ Csv.getProp row (Csv.headerKey toLowerCaseAscii "Lon")
          = Some (nth 2 (Csv.parseCSVLine "Polar,95") EmptyString)
       /\ (forall key,
             ~ In key (List.map (Csv.headerKey toLowerCaseAscii)
                         (Csv.parseCSVLine (headerLine Samples.chaseFile))) ->
             inherited key = false ->
             Csv.getProp row key = None).
Proof.
  assert (Hnd : NoDup (List.map (Csv.headerKey toLowerCaseAscii)
                         (Csv.parseCSVLine (headerLine Samples.chaseFile)))).
  { vm_compute. repeat constructor; simpl; intuition discriminate. }
  assert (Hp : ~ In "__proto__" (List.map (Csv.headerKey toLowerCaseAscii)
                                   (Csv.parseCSVLine (headerLine Samples.chaseFile)))).
  { vm_compute. intuition discriminate. }
  split; [exact Hnd|]. split; [exact Hp|].
  split; [reflexivity|]. split; [reflexivity|].
  exact (parseCSV_cells toLowerCaseAscii Samples.chaseFile 0 "Polar,95" 2 "Lon"
           Hnd Hp eq_refl eq_refl).
Defined.

Section ConversionFacts.

Variable parseFloat : string -> JsNumber.
Variable toLowerCase : string -> string.

Lemma filter_none {A : Type} (f : A -> bool) (l : list A) :
  (forall x, In x l -> f x = false) -> filter f l = [].
Proof.
  induction l as [|x l IH]; intros H; simpl; [reflexivity|].
  rewrite (H x) by now left. apply IH. intros y Hy. apply H. now right.
Qed.

Lemma parseCSV_missing_column (content : string) (key : string) (row : Csv.RowObject) :
  ~ In key (List.map (Csv.headerKey toLowerCase) (Csv.parseCSVLine (headerLine content))) ->
  In row (Csv.parseCSV toLowerCase content) ->
  Csv.rowOf row key = None.
Proof.
  intros Hk Hin. rewrite parseCSV_rows in Hin. apply in_map_iff in Hin.
  destruct Hin as [line [<- _]]. unfold Csv.rowOf. now rewrite fillRow_other.
Qed.

(** X6: a file whose header line has no [lat] column, or no [lon] column
    (after lower-casing and trimming the names), converts to no record at
    all, whichever of the two conversions reads it: every row is dropped,
    and nothing fails. *)
Theorem conversion_without_coordinates (content : string) :
  ~ In "lat" (List.map (Csv.headerKey toLowerCase) (Csv.parseCSVLine (headerLine content)))
  \/ ~ In "lon" (List.map (Csv.headerKey toLowerCase) (Csv.parseCSVLine (headerLine content))) ->
  Convert.chaseData parseFloat (List.map Csv.rowOf (Csv.parseCSV toLowerCase content)) = []
  /\ Convert.gdaData parseFloat (List.map Csv.rowOf (Csv.parseCSV toLowerCase content)) = [].
Proof.
  intros H.
  assert (Hrow : forall row, In row (Csv.parseCSV toLowerCase content) ->
                   Csv.rowOf row "lat" = None \/ Csv.rowOf row "lon" = None).
  { intros row Hin. destruct H as [H|H]; [left|right];
      now apply (parseCSV_missing_column content). }
  unfold Convert.chaseData, Convert.gdaData. split; apply filter_none; intros r Hr;
    apply in_map_iff in Hr; destruct Hr as [row' [<- Hr]];
    apply in_map_iff in Hr; destruct Hr as [row [<- Hr]];
    unfold Convert.keepChase, Convert.keepGda; simpl;
    destruct (Hrow row Hr) as [-> | ->]; simpl;
    rewrite ?andb_false_r; reflexivity.
Qed.

(** X7: every record of [restaurants.json] has the program [chase] or
    [amex], the Chase records coming first; on such a store the count of the
    filter bar is the number of markers on the map, for every filter
    state. *)
Theorem converted_programs (chaseContent gdaContent : string) (filters : Filters.t) :
  (exists chase amex,
     convertFiles parseFloat toLowerCase chaseContent gdaContent = chase ++ amex
     /\ Forall (fun r => Restaurant.program r = "chase") chase
     /\ Forall (fun r => Restaurant.program r = "amex") amex)
  /\ restaurantCount (convertFiles parseFloat toLowerCase chaseContent gdaContent) filters
     = List.length (markers (convertFiles parseFloat toLowerCase chaseContent gdaContent)
                            filters).
Proof.
  assert (Hc : forall rows, Forall (fun r => Restaurant.program r = "chase")
                              (Convert.chaseData parseFloat rows)).
  { intros rows. apply Forall_forall. intros r Hr. unfold Convert.chaseData in Hr.
    apply filter_In in Hr. destruct Hr as [Hr _]. apply in_map_iff in Hr.
    now destruct Hr as [row [<- _]]. }
  assert (Ha : forall rows, Forall (fun r => Restaurant.program r = "amex")
                              (Convert.gdaData parseFloat rows)).
  { intros rows. apply Forall_forall. intros r Hr. unfold Convert.gdaData in Hr.
    apply filter_In in Hr. destruct Hr as [Hr _]. apply in_map_iff in Hr.
    now destruct Hr as [row [<- _]]. }
  unfold convertFiles, Convert.allData. split.
  - eexists. eexists. split; [reflexivity|]. split; [apply Hc|apply Ha].
  - apply restaurantCount_markers_known. apply Forall_app. split.
    + eapply Forall_impl; [|apply Hc]. simpl. auto.
    + eapply Forall_impl; [|apply Ha]. simpl. auto.
Qed.

Lemma orElse_None_not_empty (v : option string) : orElse v None <> Some EmptyString.
Proof.
  unfold orElse, truthy. destruct v as [s|]; [|discriminate].
  destruct (String.eqb_spec s ""); simpl; congruence.
Qed.

(** X8: in [restaurants.json] every Chase record has a non-empty name,
    taken from the [name] column or else from [google_name]; the optional
    fields [cuisine], [neighborhood] and [state] of a record are never the
    empty string: an empty cell leaves them absent. *)
Theorem converted_fields (chaseContent gdaContent : string) (r : Restaurant.t) :
  In r (convertFiles parseFloat toLowerCase chaseContent gdaContent) ->
  (Restaurant.program r = "chase" ->
   exists n, Restaurant.name r = Some n /\ n <> EmptyString)
  /\ Restaurant.cuisine r <> Some EmptyString
  /\ Restaurant.neighborhood r <> Some EmptyString
  /\ Restaurant.state r <> Some EmptyString.
Proof.
  unfold convertFiles, Convert.allData, Convert.chaseData, Convert.gdaData.
  intros Hin. apply in_app_or in Hin.
  destruct Hin as [Hin|Hin]; apply filter_In in Hin; destruct Hin as [Hin Hk];
    apply in_map_iff in Hin; destruct Hin as [row [<- _]].
  - apply keepChase_coordinates in Hk. destruct Hk as [_ [_ [_ [_ Hn]]]].
    split; [|simpl; repeat split; try apply orElse_None_not_empty; discriminate].
    intros _. unfold truthy in Hn.
    destruct (Restaurant.name (Convert.chaseRecord parseFloat row)) as [n|];
      [|discriminate].
    exists n. split; [reflexivity|].
    intros ->. discriminate.
  - split; [discriminate|].
    simpl. repeat split; try apply orElse_None_not_empty; discriminate.
Qed.

End ConversionFacts.

(** X6, witness: a file with the columns [name] and [lon] only. *)
Lemma conversion_without_coordinates_witness :
  (~ In "lat" (List.map (Csv.headerKey toLowerCaseAscii)
                 (Csv.parseCSVLine (headerLine Samples.noLatFile)))
   \/ ~ In "lon" (List.map (Csv.headerKey toLowerCaseAscii)
                    (Csv.parseCSVLine (headerLine Samples.noLatFile))))
  /\ Convert.chaseData Samples.parseFloat
       (List.map Csv.rowOf (Csv.parseCSV toLowerCaseAscii Samples.noLatFile)) = []
  /\ Convert.gdaData Samples.parseFloat
       (List.map Csv.rowOf (Csv.parseCSV toLowerCaseAscii Samples.noLatFile)) = [].
Proof.
  assert (H : ~ In "lat" (List.map (Csv.headerKey toLowerCaseAscii)
                            (Csv.parseCSVLine (headerLine Samples.noLatFile)))
              \/ ~ In "lon" (List.map (Csv.headerKey toLowerCaseAscii)
                               (Csv.parseCSVLine (headerLine Samples.noLatFile)))).
  { left. vm_compute. intuition discriminate. }
  split; [exact H|].
  exact (conversion_without_coordinates Samples.parseFloat toLowerCaseAscii
           Samples.noLatFile H).
Defined.

(** X8, witness: the record of the last line of [chaseFile]. *)
Lemma converted_fields_witness :
  In (Convert.chaseRecord Samples.parseFloat
        (Samples.row [("name", "Don Angie"); ("lat", "40.7"); ("lon", "-74")]))
     (convertFiles Samples.parseFloat toLowerCaseAscii Samples.chaseFile EmptyString)
  /\ ((Restaurant.program
         (Convert.chaseRecord Samples.parseFloat
            (Samples.row [("name", "Don Angie"); ("lat", "40.7"); ("lon", "-74")]))
       = "chase" ->
       exists n,
         Restaurant.name
           (Convert.chaseRecord Samples.parseFloat
              (Samples.row [("name", "Don Angie"); ("lat", "40.7"); ("lon", "-74")]))
         = Some n /\ n <> EmptyString)
      /\ Restaurant.cuisine
           (Convert.chaseRecord Samples.parseFloat
              (Samples.row [("name", "Don Angie"); ("lat", "40.7"); ("lon", "-74")]))
         <> Some EmptyString
      /\ Restaurant.neighborhood
           (Convert.chaseRecord Samples.parseFloat
              (Samples.row [("name", "Don Angie"); ("lat", "40.7"); ("lon", "-74")]))
         <> Some EmptyString
      /\ Restaurant.state
           (Convert.chaseRecord Samples.parseFloat
              (Samples.row [("name", "Don Angie"); ("lat", "40.7"); ("lon", "-74")]))
         <> Some EmptyString).
Proof.
  assert (H : In (Convert.chaseRecord Samples.parseFloat
                    (Samples.row [("name", "Don Angie"); ("lat", "40.7"); ("lon", "-74")]))
                 (convertFiles Samples.parseFloat toLowerCaseAscii Samples.chaseFile
                               EmptyString)).
  { vm_compute. left. reflexivity. }
  split; [exact H|].
  exact (converted_fields Samples.parseFloat toLowerCaseAscii Samples.chaseFile
           EmptyString _ H).
Defined.

(** ** The city index, continued *)

Lemma find_snoc {A : Type} (f : A -> bool) (l : list A) (x : A) :
  find f (l ++ [x])
  = match find f l with
    | Some y => Some y
    | None => if f x then Some x else None
    end.
Proof.
  induction l as [|y l IH]; simpl; [reflexivity|].
  destruct (f y); [reflexivity|exact IH].
Qed.

Lemma entityCount_find (k : string) (restaurants : list Restaurant.t) :
  entityCount k restaurants = 0 -> find (hasCity k) restaurants = None.
Proof.
  unfold entityCount. induction restaurants as [|r l IH]; simpl; [reflexivity|].
  destruct (hasCity k r); simpl; [discriminate|exact IH].
Qed.

(** Each entry of the city map keeps the position of the first entity of
    its city. *)
Lemma cityMap_position (restaurants : list Restaurant.t) :
  Forall (fun kv => exists r, find (hasCity (fst kv)) restaurants = Some r
                              /\ positionOf r (snd kv))
         (cityMap restaurants).
Proof.
  induction restaurants as [|r rs IH] using rev_ind; [constructor|].
  destruct (cityMap_characterised rs) as [Hk He].
  assert (Hnd : NoDup (List.map fst (cityMap rs)))
    by (rewrite Hk; apply firstOccurrences_NoDup).
  rewrite cityMap_snoc.
  assert (Hold : Forall (fun kv => exists r0, find (hasCity (fst kv)) (rs ++ [r]) = Some r0
                                             /\ positionOf r0 (snd kv))
                        (cityMap rs)).
  { eapply Forall_impl; [|exact IH]. intros kv [r0 [Hf Hp]]. exists r0.
    split; [|exact Hp]. now rewrite find_snoc, Hf. }
  destruct (indexedCity r) as [c|] eqn:Hi.
  - rewrite (visit_indexed _ _ _ Hi Hnd).
    destruct (existsb (String.eqb c) (List.map fst (cityMap rs))) eqn:Hex.
    + rewrite Forall_map. eapply Forall_impl; [|exact Hold].
      intros [k v] H. unfold bump. simpl in *. now destruct (k =? c).
    + apply Forall_app. split; [exact Hold|]. constructor; [|constructor]. simpl.
      exists r. split; [|repeat split].
      pose proof (proj1 (indexedCity_eligible r c) Hi) as [_ [Hne Hin]].
      assert (Hc : ~ In c (indexedCities rs)).
      { rewrite <- firstOccurrences_In, <- Hk. intros H.
        apply existsb_eqb_In in H. congruence. }
      rewrite find_snoc, (entityCount_find _ _ (entityCount_unindexed c rs Hne Hin Hc)).
      now rewrite (indexedCity_hasCity _ _ c Hi), String.eqb_refl.
  - rewrite visit_unindexed; [exact Hold|exact Hi|].
    intros k Hin. rewrite Hk, firstOccurrences_In in Hin.
    apply indexedCities_In in Hin. destruct Hin as [r' [_ Hr']].
    apply indexedCity_eligible in Hr'. destruct Hr' as [_ [Hne Hinh]].
    destruct (hasCity k r) eqn:Hh; [|reflexivity].
    unfold hasCity in Hh. destruct (Restaurant.city r) as [c'|] eqn:Hc; [|discriminate].
    apply String.eqb_eq in Hh. subst c'.
    assert (indexedCity r = Some k) by (apply indexedCity_eligible; auto).
    congruence.
Qed.

Lemma cities_Permutation (restaurants : list Restaurant.t) :
  Permutation (cities restaurants) (List.map snd (cityMap restaurants)).
Proof. unfold cities. rewrite sort_Permutation. apply objectValues_Permutation. Qed.

(** X9: the position and the state that the index keeps for a city, which
    is where the map flies to when the city is selected, are those of the
    first entity of that city in the store. *)
Theorem cities_position (restaurants : list Restaurant.t) (c : City.t) :
  In c (cities restaurants) ->
  exists r,
    find (hasCity (City.name c)) restaurants = Some r
    /\ City.lat c = Restaurant.lat r
    /\ City.lon c = Restaurant.lon r
    /\ City.state c = Restaurant.state r
    /\ Home.handleCitySelect c
       = {| Home.flyLat := Restaurant.lat r; Home.flyLon := Restaurant.lon r;
            Home.flyZoom := 12 |}.
Proof.
  intros Hc. apply (Permutation_in _ (cities_Permutation restaurants)) in Hc.
  apply in_map_iff in Hc. destruct Hc as [[k v] [<- Hkv]].
  destruct (cityMap_characterised restaurants) as [_ He].
  pose proof (cityMap_position restaurants) as Hp.
  rewrite Forall_forall in He, Hp.
  destruct (He _ Hkv) as [Hn _]. destruct (Hp _ Hkv) as [r [Hf [Hlat [Hlon Hst]]]].
  simpl in *. exists r. rewrite Hn. split; [exact Hf|].
  unfold Home.handleCitySelect. rewrite Hlat, Hlon. auto.
Qed.

Lemma list_sum_Permutation (l l' : list nat) :
  Permutation l l' -> list_sum l = list_sum l'.
Proof. induction 1; simpl; lia. Qed.

Lemma bump_sum (c : string) (m : CityMap) :
  NoDup (List.map fst m) -> In c (List.map fst m) ->
  totalCount (List.map snd (List.map (bump c) m)) = S (totalCount (List.map snd m)).
Proof.
  unfold totalCount.
  induction m as [|[k v] m IH]; simpl; intros Hnd Hin; [contradiction|].
  inversion Hnd as [|? ? Hk Hm]; subst. unfold bump at 1. simpl.
  destruct (String.eqb_spec k c) as [->|Hne]; simpl.
  - assert (Hsame : List.map (bump c) m = m)
      by (rewrite <- increment_bump by exact Hm; now apply increment_absent).
    rewrite Hsame. lia.
  - destruct Hin as [Hin|Hin]; [contradiction|]. rewrite IH by assumption. lia.
Qed.

Lemma cityMap_totalCount (restaurants : list Restaurant.t) :
  totalCount (List.map snd (cityMap restaurants))
  = List.length (indexedCities restaurants).
Proof.
  induction restaurants as [|r rs IH] using rev_ind; [reflexivity|].
  destruct (cityMap_characterised rs) as [Hk He].
  assert (Hnd : NoDup (List.map fst (cityMap rs)))
    by (rewrite Hk; apply firstOccurrences_NoDup).
  rewrite cityMap_snoc, indexedCities_snoc, length_app.
  destruct (indexedCity r) as [c|] eqn:Hi.
  - rewrite (visit_indexed _ _ _ Hi Hnd).
    destruct (existsb (String.eqb c) (List.map fst (cityMap rs))) eqn:Hex.
    + apply existsb_eqb_In in Hex. rewrite (bump_sum c _ Hnd Hex), IH. simpl. lia.
    + unfold totalCount in *. rewrite !map_app, list_sum_app, IH. simpl. lia.
  - rewrite visit_unindexed; [simpl; lia|exact Hi|].
    intros k Hin. rewrite Hk, firstOccurrences_In in Hin.
    apply indexedCities_In in Hin. destruct Hin as [r' [_ Hr']].
    apply indexedCity_eligible in Hr'. destruct Hr' as [_ [Hne Hinh]].
    destruct (hasCity k r) eqn:Hh; [|reflexivity].
    unfold hasCity in Hh. destruct (Restaurant.city r) as [c'|] eqn:Hc; [|discriminate].
    apply String.eqb_eq in Hh. subst c'.
    assert (indexedCity r = Some k) by (apply indexedCity_eligible; auto).
    congruence.
Qed.

(** X10: the counts of the city index add up to the number of entities that
    have an indexed city, so at most to the size of the store: no entity is
    counted twice, and an entity without a city is counted nowhere. *)
Theorem cities_totalCount (restaurants : list Restaurant.t) :
  totalCount (cities restaurants) = List.length (indexedCities restaurants)
  /\ totalCount (cities restaurants) <= List.length restaurants
  /\ Forall (fun c => 1 <= City.count c) (cities restaurants).
Proof.
  assert (Ht : totalCount (cities restaurants) = List.length (indexedCities restaurants)).
  { rewrite <- cityMap_totalCount. unfold totalCount.
    apply list_sum_Permutation, Permutation_map, cities_Permutation. }
  split; [exact Ht|]. split.
  - rewrite Ht. unfold indexedCities. clear Ht.
    induction restaurants as [|r l IH]; simpl; [lia|].
    rewrite length_app. destruct (indexedCity r); simpl; lia.
  - apply Forall_forall. intros c Hc.
    destruct (cities_position restaurants c Hc) as [r [Hf _]].
    apply (Permutation_in _ (cities_Permutation restaurants)) in Hc.
    apply in_map_iff in Hc. destruct Hc as [[k v] [<- Hkv]].
    destruct (cityMap_characterised restaurants) as [_ He].
    rewrite Forall_forall in He. destruct (He _ Hkv) as [Hn Hcount]. simpl in *.
    rewrite Hcount, <- Hn. apply find_some in Hf. destruct Hf as [Hin Hh].
    unfold entityCount. clear - Hin Hh.
    induction restaurants as [|x l IH]; [contradiction|]. simpl.
    destruct Hin as [->|Hin]; [rewrite Hh; simpl; lia|].
    destruct (hasCity (City.name v) x); simpl; [lia|now apply IH].
Qed.

(** X9, witness: "NEW YORK" in the index of [newYorkStore] has the position
    of Le Bernardin, the first of its entities. *)
Lemma cities_position_witness :
  In {| City.name := "NEW YORK"; City.count := 2;
        City.lat := Finite (407614 # 10000); City.lon := Finite (-739817 # 10000);
        City.state := Some "NY" |}
     (cities Samples.newYorkStore)
  /\ exists r,
       find (hasCity "NEW YORK") Samples.newYorkStore = Some r
       /\ Finite (407614 # 10000) = Restaurant.lat r
       /\ Finite (-739817 # 10000) = Restaurant.lon r
       /\ Some "NY" = Restaurant.state r
       /\ Home.handleCitySelect
            {| City.name := "NEW YORK"; City.count := 2;
               City.lat := Finite (407614 # 10000); City.lon := Finite (-739817 # 10000);
               City.state := Some "NY" |}
          = {| Home.flyLat := Restaurant.lat r; Home.flyLon := Restaurant.lon r;
               Home.flyZoom := 12 |}.
Proof.
  assert (H : In {| City.name := "NEW YORK"; City.count := 2;
                    City.lat := Finite (407614 # 10000);
                    City.lon := Finite (-739817 # 10000);
                    City.state := Some "NY" |}
                 (cities Samples.newYorkStore)).
  { left. reflexivity. }
  split; [exact H|].
  exact (cities_position Samples.newYorkStore _ H).
Defined.

(** ** The filter bar *)

(** X11: the count shown in the filter bar is the sum of the counts shown on
    the buttons of the programs that are toggled on, and the two button
    counts together never exceed the size of the store. *)
Theorem restaurantCount_buttons (restaurants : list Restaurant.t) (filters : Filters.t) :
  restaurantCount restaurants filters
  = (if Filters.amex filters then HomeUi.amexCount restaurants else 0)
    + (if Filters.chase filters then HomeUi.chaseCount restaurants else 0)
  /\ HomeUi.amexCount restaurants + HomeUi.chaseCount restaurants
     <= List.length restaurants.
Proof.
  unfold restaurantCount, HomeUi.amexCount, HomeUi.chaseCount, isCounted.
  induction restaurants as [|r l [IHc IHl]]; simpl;
    [destruct (Filters.amex filters), (Filters.chase filters); split; reflexivity|].
  destruct (Restaurant.program r =? "amex") eqn:Ha.
  - rewrite (eqb_amex_chase _ Ha).
    destruct (Filters.amex filters), (Filters.chase filters); simpl in *; lia.
  - destruct (Restaurant.program r =? "chase");
      destruct (Filters.amex filters), (Filters.chase filters); simpl in *; lia.
Qed.

(** X12: clicking a program button twice restores the filter state; clicks
    on the two buttons commute; and every filter state is reached from the
    initial one by at most two clicks. *)
Theorem onClick_compose :
  (forall b f, onClick b (onClick b f) = f)
  /\ (forall a b f, onClick a (onClick b f) = onClick b (onClick a f))
  /\ (forall f, exists clicks,
        List.length clicks <= 2
        /\ fold_left (fun s b => onClick b s) clicks Filters.initial = f).
Proof.
  split; [|split].
  - intros [] [[] []]; reflexivity.
  - intros [] [] [[] []]; reflexivity.
  - intros [[] []].
    + exists []. split; [simpl; lia|reflexivity].
    + exists [ChaseButton]. split; [simpl; lia|reflexivity].
    + exists [AmexButton]. split; [simpl; lia|reflexivity].
    + exists [AmexButton; ChaseButton]. split; [simpl; lia|reflexivity].
Qed.

Lemma filter_filter_and {A : Type} (f g : A -> bool) (l : list A) :
  filter f (filter g l) = filter (fun x => g x && f x) l.
Proof.
  induction l as [|x l IH]; simpl; [reflexivity|].
  destruct (g x); simpl; [destruct (f x); now rewrite IH|exact IH].
Qed.

(** X13: switching a program off removes from the visible set exactly the
    entities of that program and keeps the other visible entities in place;
    with both programs off only entities of other programs remain. *)
Theorem filtered_switch_off (restaurants : list Restaurant.t) (a c : bool) :
  filtered restaurants {| Filters.amex := false; Filters.chase := c |}
  = filter (fun r => negb (Restaurant.program r =? "amex"))
           (filtered restaurants {| Filters.amex := true; Filters.chase := c |})
  /\ filtered restaurants {| Filters.amex := a; Filters.chase := false |}
     = filter (fun r => negb (Restaurant.program r =? "chase"))
              (filtered restaurants {| Filters.amex := a; Filters.chase := true |})
  /\ filtered restaurants {| Filters.amex := false; Filters.chase := false |}
     = filter (fun r => negb (Restaurant.program r =? "amex")
                        && negb (Restaurant.program r =? "chase")) restaurants.
Proof.
  unfold filtered. rewrite !filter_filter_and.
  split; [|split]; apply filter_ext; intros r; unfold isVisible; simpl;
    destruct (Restaurant.program r =? "amex") eqn:Ha;
    try rewrite (eqb_amex_chase _ Ha);
    destruct (Restaurant.program r =? "chase"); destruct a, c; reflexivity.
Qed.

(** ** The search box *)

Lemma cities_names_NoDup (restaurants : list Restaurant.t) :
  NoDup (List.map City.name (cities restaurants)).
Proof.
  destruct (cityMap_characterised restaurants) as [Hk _].
  apply (Permutation_NoDup
           (l := firstOccurrences (indexedCities restaurants)));
    [|apply firstOccurrences_NoDup].
  rewrite <- Hk, <- cityMap_names. symmetry.
  apply Permutation_map, cities_Permutation.
Qed.

Lemma NoDup_map_filter {A B : Type} (g : A -> B) (f : A -> bool) (l : list A) :
  NoDup (List.map g l) -> NoDup (List.map g (filter f l)).
Proof.
  induction l as [|x l IH]; simpl; intros H; [constructor|].
  inversion H as [|? ? Hx Hl]; subst.
  destruct (f x); simpl; [|now apply IH].
  constructor; [|now apply IH].
  intros Hin. apply Hx. apply in_map_iff in Hin. destruct Hin as [y [Hy Hin]].
  apply filter_In in Hin. apply in_map_iff. exists y. tauto.
Qed.

Lemma NoDup_map_firstn {A B : Type} (g : A -> B) (n : nat) (l : list A) :
  NoDup (List.map g l) -> NoDup (List.map g (firstn n l)).
Proof.
  revert n. induction l as [|x l IH]; intros [|n] H; simpl; try constructor.
  - inversion H as [|? ? Hx Hl]; subst. intros Hin. apply Hx.
    apply in_map_iff in Hin. destruct Hin as [y [Hy Hin]].
    apply firstn_In_incl in Hin. apply in_map_iff. exists y. tauto.
  - inversion H; subst. now apply IH.
Qed.

Section SearchBox.

Variable toLowerCase : string -> string.

(** X14: over the city index of a store, the search never lists a city
    name twice, whatever the query. *)
Theorem filteredCities_names_NoDup (restaurants : list Restaurant.t) (query : string) :
  NoDup (List.map City.name (filteredCities toLowerCase (cities restaurants) query)).
Proof.
  pose proof (cities_names_NoDup restaurants) as Hnd.
  destruct (whitespaceOnly query) eqn:Hq.
  - rewrite (filteredCities_blank _ _ _ Hq). now apply NoDup_map_firstn.
  - rewrite (filteredCities_nonblank _ _ _ Hq). apply NoDup_map_firstn.
    unfold ranking.
    eapply Permutation_NoDup;
      [symmetry; apply Permutation_map, sort_Permutation|].
    now apply NoDup_map_filter.
Qed.

(** Two queries with the same lower-case form, both white space only or
    both not, give the same result. *)
Lemma filteredCities_same_lower (idx : list City.t) (q1 q2 : string) :
  toLowerCase q1 = toLowerCase q2 -> whitespaceOnly q1 = whitespaceOnly q2 ->
  filteredCities toLowerCase idx q1 = filteredCities toLowerCase idx q2.
Proof.
  intros Hl Hw. unfold filteredCities. now rewrite !trim_blank, Hw, Hl.
Qed.

(** X15: after a city of the index is selected, the search box holds its
    name, the results are closed and the fly-to target is the position of
    the city at zoom 12.  When the box gets the focus again (the name not
    being white space only), the results open, and their first entry is a
    city with that name up to case, with a count at least that of the
    selected city. *)
Theorem handleCitySelect_then_focus (idx : list City.t) (city : City.t)
    (st : HomeUi.SearchState) :
  In city idx -> whitespaceOnly (City.name city) = false ->
  HomeUi.searchQuery (HomeUi.handleCitySelect city st) = City.name city
  /\ HomeUi.dropdownShown toLowerCase idx (HomeUi.handleCitySelect city st) = false
  /\ HomeUi.flyToLocation (HomeUi.handleCitySelect city st)
     = Some {| Home.flyLat := City.lat city; Home.flyLon := City.lon city;
               Home.flyZoom := 12 |}
  /\ HomeUi.dropdownShown toLowerCase idx
       (HomeUi.onFocus (HomeUi.handleCitySelect city st)) = true
  /\ exists first rest,
       filteredCities toLowerCase idx
         (HomeUi.searchQuery (HomeUi.onFocus (HomeUi.handleCitySelect city st)))
       = first :: rest
       /\ exactMatch toLowerCase (City.name city) first = true
       /\ City.count city <= City.count first.
Proof.
  intros Hin Hq.
  assert (Hex : exactMatch toLowerCase (City.name city) city = true)
    by (unfold exactMatch; apply String.eqb_refl).
  destruct (ranking_head_exact toLowerCase idx (City.name city) city Hin Hex)
    as [first [rest [Hr [_ [He Hmax]]]]].
  assert (Hres : filteredCities toLowerCase idx (City.name city)
                 = first :: firstn 19 rest).
  { rewrite (filteredCities_nonblank _ _ _ Hq), Hr. reflexivity. }
  split; [reflexivity|]. split; [reflexivity|]. split; [reflexivity|]. split.
  - unfold HomeUi.dropdownShown. simpl. rewrite Hres. reflexivity.
  - exists first, (firstn 19 rest). simpl. split; [exact Hres|].
    split; [exact He|]. now apply Hmax.
Qed.

(** X16: the dropdown is rendered exactly when the results are open and the
    query selects a city: with a query that is not white space only and that
    no city name contains, it stays hidden even while the box has the focus;
    with an empty query it shows as soon as the index has a city. *)
Theorem dropdownShown_iff (idx : list City.t) (st : HomeUi.SearchState) :
  (whitespaceOnly (HomeUi.searchQuery st) = false ->
   (HomeUi.dropdownShown toLowerCase idx st = true <->
    HomeUi.showSearchResults st = true
    /\ exists c, In c idx
                 /\ containsQuery toLowerCase (HomeUi.searchQuery st) c = true))
  /\ (whitespaceOnly (HomeUi.searchQuery st) = true ->
      (HomeUi.dropdownShown toLowerCase idx st = true <->
       HomeUi.showSearchResults st = true /\ idx <> [])).
Proof.
  unfold HomeUi.dropdownShown. split; intros Hq.
  - rewrite (filteredCities_nonblank _ _ _ Hq), andb_true_iff, Nat.ltb_lt.
    split; intros [Hs H]; (split; [exact Hs|]).
    + destruct (ranking toLowerCase idx (HomeUi.searchQuery st)) as [|c l] eqn:Hr;
        [simpl in H; lia|].
      assert (Hc : In c (ranking toLowerCase idx (HomeUi.searchQuery st)))
        by (rewrite Hr; now left).
      unfold ranking in Hc. apply sort_In, matches_In in Hc. now exists c.
    + destruct H as [c [Hc Hm]].
      assert (H : In c (ranking toLowerCase idx (HomeUi.searchQuery st)))
        by (unfold ranking; apply sort_In, matches_In; auto).
      destruct (ranking toLowerCase idx (HomeUi.searchQuery st)); [destruct H|].
      simpl. lia.
  - rewrite (filteredCities_blank _ _ _ Hq), andb_true_iff, Nat.ltb_lt.
    split; intros [Hs H]; (split; [exact Hs|]).
    + intros ->. simpl in H. lia.
    + destruct idx; [congruence|]. simpl. lia.
Qed.

End SearchBox.

(** X15, witness: "New York" selected in the index of [newYorkStore]. *)
Lemma handleCitySelect_then_focus_witness :
  In {| City.name := "New York"; City.count := 1;
        City.lat := Finite (407378 # 10000); City.lon := Finite (-740022 # 10000);
        City.state := Some "NY" |}
     (cities Samples.newYorkStore)
  /\ whitespaceOnly "New York" = false
  /\ HomeUi.dropdownShown toLowerCaseAscii (cities Samples.newYorkStore)
       (HomeUi.onFocus
          (HomeUi.handleCitySelect
             {| City.name := "New York"; City.count := 1;
                City.lat := Finite (407378 # 10000); City.lon := Finite (-740022 # 10000);
                City.state := Some "NY" |}
             HomeUi.initialSearch)) = true.
Proof.
  assert (H : In {| City.name := "New York"; City.count := 1;
                    City.lat := Finite (407378 # 10000);
                    City.lon := Finite (-740022 # 10000);
                    City.state := Some "NY" |}
                 (cities Samples.newYorkStore)).
  { right. left. reflexivity. }
  split; [exact H|]. split; [reflexivity|].
  exact (proj1 (proj2 (proj2 (proj2
           (handleCitySelect_then_focus toLowerCaseAscii (cities Samples.newYorkStore)
              _ HomeUi.initialSearch H eq_refl))))).
Defined.

(** ** Markers *)



(** X19: selecting a city makes the map fly once.  Leaflet accepting every
    finite position and rejecting a NaN coordinate: when the map exists and
    the city has a finite position, the fly effect calls [flyTo] with that
    position and zoom 12 and clears the target, so that the next run of the
    effect makes no call; when a coordinate of the city is NaN, [flyTo]
    throws and the target is not cleared; while the map does not exist, the
    effect makes no call and keeps the target.  A target with zoom 0 flies
    at zoom 12. *)
Theorem flyEffect_once (latLngThrows : JsNumber -> JsNumber -> bool)
    (refs : Refs) (city : City.t) (st : HomeUi.SearchState) :
  (forall a b, latLngThrows (Finite a) (Finite b) = false) ->
  (forall lat lon, isNaN lat || isNaN lon = true -> latLngThrows lat lon = true) ->
  (forall m a b,
     mapInstanceRef refs = Some m ->
     City.lat city = Finite a -> City.lon city = Finite b ->
     MapEffects.flyEffect latLngThrows refs (HomeUi.handleCitySelect city st)
     = MapEffects.Flew {| MapEffects.flyCenter := (Finite a, Finite b);
                          MapEffects.flyLevel := 12 |}
                       (HomeUi.onFlyComplete (HomeUi.handleCitySelect city st))
     /\ MapEffects.flyEffect latLngThrows refs
          (HomeUi.onFlyComplete (HomeUi.handleCitySelect city st))
        = MapEffects.NoFly (HomeUi.onFlyComplete (HomeUi.handleCitySelect city st))
     /\ HomeUi.searchQuery (HomeUi.onFlyComplete (HomeUi.handleCitySelect city st))
        = City.name city)
  /\ (forall m,
        mapInstanceRef refs = Some m ->
        isNaN (City.lat city) || isNaN (City.lon city) = true ->
        MapEffects.flyEffect latLngThrows refs (HomeUi.handleCitySelect city st)
        = MapEffects.FlyThrew (HomeUi.handleCitySelect city st))
  /\ (mapInstanceRef refs = None ->
      MapEffects.flyEffect latLngThrows refs (HomeUi.handleCitySelect city st)
      = MapEffects.NoFly (HomeUi.handleCitySelect city st))
  /\ (forall m a b,
        mapInstanceRef refs = Some m ->
        exists st',
          MapEffects.flyEffect latLngThrows refs
            {| HomeUi.searchQuery := HomeUi.searchQuery st;
               HomeUi.showSearchResults := HomeUi.showSearchResults st;
               HomeUi.flyToLocation :=
                 Some {| Home.flyLat := Finite a; Home.flyLon := Finite b;
                         Home.flyZoom := 0 |} |}
          = MapEffects.Flew {| MapEffects.flyCenter := (Finite a, Finite b);
                               MapEffects.flyLevel := 12 |} st').
Proof.
  intros Hfinite Hnan. unfold MapEffects.flyEffect.
  destruct refs as [[m0|] g]; simpl; repeat split; intros; try discriminate.
  - repeat match goal with H : _ = Finite _ |- _ => rewrite H end.
    now rewrite Hfinite.
  - now rewrite Hnan.
  - rewrite Hfinite. eexists. reflexivity.
Qed.

(** X19, witness: selecting Chicago once the map exists. *)
Lemma flyEffect_once_witness :
  (forall a b, Samples.latLngThrows (Finite a) (Finite b) = false)
  /\ (forall lat lon,
        isNaN lat || isNaN lon = true -> Samples.latLngThrows lat lon = true)
  /\ MapEffects.flyEffect Samples.latLngThrows
       {| mapInstanceRef := Some initialMap; clusterGroupRef := Some [] |}
       (HomeUi.handleCitySelect Samples.chicago HomeUi.initialSearch)
     = MapEffects.Flew
         {| MapEffects.flyCenter := (Finite (418841 # 10000), Finite (-876480 # 10000));
            MapEffects.flyLevel := 12 |}
         (HomeUi.onFlyComplete
            (HomeUi.handleCitySelect Samples.chicago HomeUi.initialSearch)).
Proof.
  assert (Hfinite : forall a b, Samples.latLngThrows (Finite a) (Finite b) = false)
    by reflexivity.
  assert (Hnan : forall lat lon,
             isNaN lat || isNaN lon = true -> Samples.latLngThrows lat lon = true)
    by (intros lat lon H; exact H).
  split; [exact Hfinite|]. split; [exact Hnan|].
  apply (proj1 (flyEffect_once Samples.latLngThrows
                  {| mapInstanceRef := Some initialMap; clusterGroupRef := Some [] |}
                  Samples.chicago HomeUi.initialSearch Hfinite Hnan)
               initialMap (418841 # 10000)%Q (-876480 # 10000)%Q);
    reflexivity.
Defined.

(** X20: the size of a cluster icon follows its count: small up to 10,
    medium from 11 to 100, large above; a larger count never gets a smaller
    icon or a smaller font. *)
Theorem sizeClass_thresholds (count1 count2 : nat) :
  (sizeClass count1 = small <-> count1 <= 10)
  /\ (sizeClass count1 = medium <-> 11 <= count1 <= 100)
  /\ (sizeClass count1 = large <-> 100 < count1)
  /\ (count1 <= count2 ->
      MapEffects.iconSide (sizeClass count1) <= MapEffects.iconSide (sizeClass count2)
      /\ MapEffects.iconFontSize (sizeClass count1)
         <= MapEffects.iconFontSize (sizeClass count2)).
Proof.
  unfold sizeClass.
  destruct (Nat.ltb_spec 100 count1), (Nat.ltb_spec 10 count1),
           (Nat.ltb_spec 100 count2), (Nat.ltb_spec 10 count2);
    simpl; repeat split; intros; try discriminate; try lia.
Qed.

(** X21: the marker of an entity whose program is neither [amex] nor
    [chase] (nor a member name of [Object.prototype]) gets the icon of the
    Amex program, while its popup is labelled as the Chase program, with
    OpenTable as the booking platform; for [amex] and [chase] the icon and
    the label agree. *)
Theorem createMarker_other_program (r : Restaurant.t) :
  (Restaurant.program r <> "amex" -> Restaurant.program r <> "chase" ->
   inherited (Restaurant.program r) = false ->
   icon (createMarker r) = iconFor "amex"
   /\ programLabel (popup (createMarker r)) = "Chase Sapphire Reserve"
   /\ bookingPlatform (popup (createMarker r)) = "OpenTable")
  /\ (Restaurant.program r = "amex" ->
      icon (createMarker r) = Icon (createIcon "#f59e0b")
      /\ programLabel (popup (createMarker r)) = "Amex Global Dining"
      /\ bookingPlatform (popup (createMarker r)) = "Resy")
  /\ (Restaurant.program r = "chase" ->
      icon (createMarker r) = Icon (createIcon "#3b82f6")
      /\ programLabel (popup (createMarker r)) = "Chase Sapphire Reserve"
      /\ bookingPlatform (popup (createMarker r)) = "OpenTable").
Proof.
  unfold createMarker, createPopupContent, iconFor, ICONS. simpl.
  split; [|split].
  - intros Ha Hc Hi. apply String.eqb_neq in Ha, Hc. rewrite Ha, Hc, Hi. auto.
  - intros ->. auto.
  - intros ->. auto.
Qed.

(** ** The locate button *)

Section LocateFacts.

Import MapEffects.

Variable latLngThrows : JsNumber -> JsNumber -> bool.

Lemma locateStep_invariant (st : LocateState) (ev : LocateEvent) :
  locateInvariant st -> enabled st ev = true ->
  locateInvariant (stateOf (locateStep latLngThrows st ev)).
Proof.
  intros [Hm [Hl [Hp [He Hv]]]] Hen. unfold locateInvariant.
  destruct ev; simpl in *.
  - apply negb_true_iff in Hen. rewrite Hen in Hp.
    destruct (view st) as [v|] eqn:Hview; simpl; rewrite ?Hview, ?Hen.
    + repeat split; auto; try lia; try discriminate.
    + repeat split; auto; try lia; try discriminate.
  - apply Nat.ltb_lt in Hen.
    assert (Hthrew : locateInvariant
                       {| view := view st; userMarkerRef := userMarkerRef st;
                          userLayers := userLayers st;
                          isLocating := isLocating st;
                          locationError := locationError st;
                          pending := Nat.pred (pending st); nextId := nextId st |}).
    { unfold locateInvariant. simpl. repeat split; auto.
      destruct (isLocating st); lia. }
    destruct (view st) as [v|] eqn:Hview; [|exact Hthrew].
    destruct (latLngThrows latitude longitude); [exact Hthrew|]. simpl.
    assert (Hgone : match userMarkerRef st with
                    | Some old => removeLayer old (userLayers st)
                    | None => userLayers st
                    end = []).
    { destruct (userMarkerRef st) as [old|] eqn:Href.
      - destruct (userLayers st) as [|m [|m' l]]; simpl in Hl; [reflexivity| |lia].
        specialize (Hm m (or_introl eq_refl)). injection Hm as ->.
        unfold removeLayer. simpl. now rewrite Nat.eqb_refl.
      - destruct (userLayers st) as [|m l]; [reflexivity|].
        specialize (Hm m (or_introl eq_refl)). discriminate. }
    rewrite Hgone. simpl. repeat split.
    + intros m [<-|[]]. reflexivity.
    + lia.
    + destruct (isLocating st); lia.
    + discriminate.
    + discriminate.
  - apply Nat.ltb_lt in Hen. repeat split; auto; try discriminate.
    destruct (isLocating st); lia.
  - repeat split; auto. intros m [].
  - destruct (view st) as [v|] eqn:Hview; [discriminate|]. simpl.
    repeat split; auto; discriminate.
Qed.

Lemma reachable_invariant (st : LocateState) :
  reachable latLngThrows st -> locateInvariant st.
Proof.
  induction 1 as [|st ev _ IH Hen].
  - unfold locateInvariant. simpl. repeat split; auto; try lia; intros m [].
  - now apply locateStep_invariant.
Qed.

(** X22: in every state that the locate button can reach, the map removed
    and created again and throwing answers included, the map shows at most
    one marker of the user's position (the one of [userMarkerRef]: a new
    position replaces the old marker) and none when the map is gone; at
    most one position request is unanswered, and none unless locating; no
    error message is shown while locating.  Leaflet accepting every finite
    position and rejecting a NaN coordinate: while the map exists no event
    throws, an answer apart whose position is not finite; an answer with a
    position that arrives when the map is gone, or with a NaN coordinate,
    throws and leaves [isLocating] as it was, with no request left to
    answer it. *)
Theorem locate_invariant (st : LocateState) :
  (forall a b, latLngThrows (Finite a) (Finite b) = false) ->
  (forall lat lon, isNaN lat || isNaN lon = true -> latLngThrows lat lon = true) ->
  reachable latLngThrows st ->
  locateInvariant st
  /\ pending st <= 1
  /\ (forall ev,
        enabled st ev = true -> view st <> None ->
        (forall lat lon, ev = PositionFound lat lon -> finitePosition lat lon) ->
        exists st', locateStep latLngThrows st ev = Returned st')
  /\ (forall lat lon,
        enabled st (PositionFound lat lon) = true ->
        view st = None \/ isNaN lat || isNaN lon = true ->
        exists st',
          locateStep latLngThrows st (PositionFound lat lon) = Threw st'
          /\ isLocating st' = isLocating st /\ pending st' = 0
          /\ userLayers st' = userLayers st).
Proof.
  intros Hfinite Hnan Hr. pose proof (reachable_invariant st Hr) as Hinv.
  split; [exact Hinv|]. destruct Hinv as [_ [_ [Hp _]]].
  assert (Hp1 : pending st <= 1) by (destruct (isLocating st); lia).
  split; [exact Hp1|]. split.
  - intros ev Hen Hview Hpos. destruct (view st) as [v|] eqn:Hv; [|congruence].
    destruct ev; simpl; rewrite ?Hv; try (eexists; reflexivity).
    destruct (Hpos _ _ eq_refl) as [a [b [-> ->]]]. rewrite Hfinite.
    eexists. reflexivity.
  - intros lat lon Hen Hbad. simpl in Hen. apply Nat.ltb_lt in Hen. simpl.
    destruct Hbad as [Hview|Hbad].
    + rewrite Hview. eexists. split; [reflexivity|]. simpl.
      repeat split; try reflexivity. lia.
    + destruct (view st); try rewrite (Hnan lat lon Hbad); eexists;
        (split; [reflexivity|]); simpl; repeat split; try reflexivity; lia.
Qed.

End LocateFacts.

(** X22, witness: the state after a click on the button and an answer with
    a position. *)
Lemma locate_invariant_witness :
  (forall a b, Samples.latLngThrows (Finite a) (Finite b) = false)
  /\ (forall lat lon,
        isNaN lat || isNaN lon = true -> Samples.latLngThrows lat lon = true)
  /\ MapEffects.reachable Samples.latLngThrows Samples.located
  /\ locateInvariant Samples.located
  /\ MapEffects.pending Samples.located <= 1.
Proof.
  assert (Hfinite : forall a b, Samples.latLngThrows (Finite a) (Finite b) = false)
    by reflexivity.
  assert (Hnan : forall lat lon,
             isNaN lat || isNaN lon = true -> Samples.latLngThrows lat lon = true)
    by (intros lat lon H; exact H).
  assert (H : MapEffects.reachable Samples.latLngThrows Samples.located).
  { apply (MapEffects.reachable_step Samples.latLngThrows Samples.locating
             (MapEffects.PositionFound (Finite (407 # 10)) (Finite (-74 # 1))));
      [|reflexivity].
    apply (MapEffects.reachable_step Samples.latLngThrows MapEffects.mounted
             MapEffects.ClickLocate);
      [apply MapEffects.reachable_mounted|reflexivity]. }
  split; [exact Hfinite|]. split; [exact Hnan|]. split; [exact H|].
  pose proof (locate_invariant Samples.latLngThrows Samples.located Hfinite Hnan H)
    as [Hinv [Hp _]].
  split; [exact Hinv|exact Hp].
Defined.
